(** * Data-Modelling: an embedding of the exam-method example scripts

    The repository is a set of flat example scripts
    ([python_examples.py], [pandas_examples.py], [numpy_examples.py],
    [scipy_exam_methods_examples.py]).  Each snippet calls a Python built-in
    or a library routine on a small literal dataset.  This file embeds the
    snippets together with the semantics of the built-ins and library calls
    they use, as the scripts call them. *)

From Stdlib Require Import ZArith List String Ascii Bool Lia.
From Stdlib Require Import QArith Qround.
From Stdlib Require Import Reals Lra.
From Stdlib Require Import Sorted Permutation.
From Stdlib Require Decimal DecimalString DecimalZ.
Import ListNotations.

(* ------------------------------------------------------------------ *)
(** ** Python lists ([python_examples.py], snippets 6 to 9) *)

Module PyList.

(** Python exceptions raised by the list operations used by the scripts. *)
Inductive py_error :=
| IndexError
| ValueError.

Section Ops.
Context {A : Type} (eq_dec : forall x y : A, {x = y} + {x <> y}).

(** Python [x == v] / [x != v] on the elements. *)
Definition py_eq (x y : A) : bool := if eq_dec x y then true else false.

(** [del L[i]]: a negative index counts from the end; an index out of range
    raises [IndexError]; otherwise the element is removed in place. *)
Definition py_del (i : Z) (L : list A) : (list A + py_error) :=
  let n := Z.of_nat (List.length L) in
  let j := if (i <? 0)%Z then (i + n)%Z else i in
  if ((0 <=? j) && (j <? n))%Z
  then inl (firstn (Z.to_nat j) L ++ skipn (S (Z.to_nat j)) L)
  else inr IndexError.

(** [L.remove(v)]: removes the first element equal to [v]; [ValueError]
    when there is none. *)
Fixpoint py_remove (v : A) (L : list A) : (list A + py_error) :=
  match L with
  | [] => inr ValueError
  | x :: L' =>
      if py_eq x v then inl L'
      else match py_remove v L' with
           | inl L'' => inl (x :: L'')
           | inr e => inr e
           end
  end.

(** [L.pop()]: returns the last element and removes it in place;
    [IndexError] on the empty list. *)
Definition py_pop (L : list A) : ((A * list A) + py_error) :=
  match rev L with
  | [] => inr IndexError
  | x :: r => inl (x, rev r)
  end.

(** [[x for x in L if x != v]]: a fresh list; [L] is untouched. *)
Definition filter_ne (v : A) (L : list A) : list A :=
  filter (fun x => negb (py_eq x v)) L.

(** [[x for x in L if x == v]]. *)
Definition filter_eq (v : A) (L : list A) : list A :=
  filter (fun x => py_eq x v) L.

(** The operations the script applies to the list object bound to [L]. *)
Inductive list_op :=
| OpDel (i : Z)          (* del L[i] *)
| OpRemove (v : A)       (* L.remove(v) *)
| OpPop                  (* L.pop() *)
| OpFilterNe (v : A)     (* [x for x in L if x != v] *)
| OpPrint.               (* print(..., L) *)

(** The list objects of an example: the object at each address, and the
    first address not yet allocated.  A name such as [L] is bound to an
    address; every use of the name reaches the same object. *)
Record heap := mkHeap { objs : nat -> list A; next : nat }.

(** Writing new contents into the object at address [a], in place. *)
Definition hwrite (a : nat) (l : list A) (h : heap) : heap :=
  mkHeap (fun b => if Nat.eqb b a then l else objs h b) (next h).

(** A new list object holding [l], at the first free address. *)
Definition halloc (l : list A) (h : heap) : nat * heap :=
  (next h, mkHeap (fun b => if Nat.eqb b (next h) then l else objs h b) (S (next h))).

(** [r.append(x)] on the object at address [r]. *)
Definition happend (r : nat) (x : A) (h : heap) : heap :=
  hwrite r (objs h r ++ [x]) h.

(** The loop of [[x for x in L if x != v]]: the list iterator reads [L[i]]
    from the object at address [a] for [i = 0, 1, ...] until [i] is past its
    end, and each kept element is appended to the result object at address
    [r].  [fuel] bounds the number of steps. *)
Fixpoint comp_loop (fuel : nat) (v : A) (a r i : nat) (h : heap) : heap :=
  match fuel with
  | O => h
  | S fuel' =>
      match nth_error (objs h a) i with
      | None => h
      | Some x =>
          comp_loop fuel' v a r (S i)
            (if negb (py_eq x v) then happend r x h else h)
      end
  end.

(** [[x for x in L if x != v]] with [L] at address [a]: a new empty list
    object, filled by the loop (run for [len(L)] steps, one per element
    of [L] as it is when the loop starts). *)
Definition comprehension_ne (v : A) (a : nat) (h : heap) : nat * heap :=
  let (r, h1) := halloc [] h in
  (r, comp_loop (List.length (objs h a)) v a r 0 h1).

(** What an operation evaluates to: [None], an element, or (the address
    of) a list object. *)
Inductive op_value :=
| VNone
| VElem (x : A)
| VObj (r : nat).

(** Executing an operation on the list object at address [a]: the value it
    returns and the objects afterwards. *)
Definition exec_op (op : list_op) (a : nat) (h : heap) : ((op_value * heap) + py_error) :=
  match op with
  | OpDel i =>
      match py_del i (objs h a) with inl L' => inl (VNone, hwrite a L' h) | inr e => inr e end
  | OpRemove v =>
      match py_remove v (objs h a) with inl L' => inl (VNone, hwrite a L' h) | inr e => inr e end
  | OpPop =>
      match py_pop (objs h a) with inl (x, L') => inl (VElem x, hwrite a L' h) | inr e => inr e end
  | OpFilterNe v => let (r, h') := comprehension_ne v a h in inl (VObj r, h')
  | OpPrint => inl (VNone, h)
  end.

(** The operations that write to the list object. *)
Definition destructive (op : list_op) : bool :=
  match op with
  | OpDel _ | OpRemove _ | OpPop => true
  | OpFilterNe _ | OpPrint => false
  end.

End Ops.

Arguments heap A : clear implicits.

(** [L = [...]] at the start of a snippet: a new list object at address
    [0], the first one of the example. *)
Definition snippet_heap {A : Type} (L : list A) : heap A :=
  mkHeap (fun b => if Nat.eqb b 0 then L else []) 1.

Local Open Scope Z_scope.

(** Snippet 6: [L = [10, 20, 30, 40]; del L[1]]. *)
Definition snippet_del : (list Z + py_error) := py_del 1 [10; 20; 30; 40].

(** Snippet 7: [L = [1, 2, 2, 3]; L.remove(2)]. *)
Definition snippet_remove : (list Z + py_error) := py_remove Z.eq_dec 2 [1; 2; 2; 3].

(** Snippet 8: [L = ["a", "b", "c"]; L.pop()]. *)
Definition snippet_pop : ((string * list string) + py_error) :=
  py_pop ["a"; "b"; "c"]%string.

(** Snippet 9: [[x for x in [1, 2, 2, 3, 2, 4] if x != 2]]. *)
Definition snippet_filter : list Z := filter_ne Z.eq_dec 2 [1; 2; 2; 3; 2; 4].

End PyList.

(* ------------------------------------------------------------------ *)
(** ** Text files ([python_examples.py], snippet 2)

    [open(name, "w", encoding="utf-8")] followed by [f.write(s)], then
    [open(name, "r", encoding="utf-8")] followed by [f.read()].  Both opens
    use the default [newline=None]: on writing every ["\n"] is replaced by
    [os.linesep]; on reading every ["\r\n"] and every lone ["\r"] becomes
    ["\n"] (universal newlines).  Text is modelled as ASCII strings, on which
    UTF-8 encoding and decoding leave the characters as they are. *)

Module TextFile.

Definition nl : ascii := ascii_of_nat 10.
Definition cr : ascii := ascii_of_nat 13.

(** [os.linesep] on POSIX and on Windows. *)
Definition linesep_posix : string := String nl EmptyString.
Definition linesep_windows : string := String cr (String nl EmptyString).

(** Newline translation of a text-mode write with [newline=None]. *)
Fixpoint translate_out (linesep : string) (s : string) : string :=
  match s with
  | EmptyString => EmptyString
  | String c s' =>
      if Ascii.eqb c nl then append linesep (translate_out linesep s')
      else String c (translate_out linesep s')
  end.

(** Universal-newline translation of a text-mode read with [newline=None]. *)
Fixpoint translate_in (s : string) : string :=
  match s with
  | EmptyString => EmptyString
  | String c s' =>
      if Ascii.eqb c cr then
        String nl (match s' with
                   | String c2 s'' =>
                       if Ascii.eqb c2 nl then translate_in s'' else translate_in s'
                   | EmptyString => EmptyString
                   end)
      else String c (translate_in s')
  end.

(** The working directory: file name to raw file content. *)
Definition fs := string -> option string.

(** [with open(name, "w") as f: f.write(s)]: creates or truncates the file. *)
Definition write_text (linesep : string) (name : string) (s : string) (d : fs) : fs :=
  fun n => if string_dec n name then Some (translate_out linesep s) else d n.

(** [with open(name, "r") as f: f.read()]; [None] is [FileNotFoundError]. *)
Definition read_text (name : string) (d : fs) : option string :=
  match d name with
  | Some raw => Some (translate_in raw)
  | None => None
  end.

(** The text written by snippet 2: ["Hello file!\nSecond line.\n"]. *)
Definition example_text : string :=
  append "Hello file!" (String nl (append "Second line." (String nl EmptyString))).

(** Snippet 2: write [example.txt], then read it back. *)
Definition snippet_open (linesep : string) (d : fs) : option string :=
  read_text "example.txt" (write_text linesep "example.txt" example_text d).

End TextFile.

(* ------------------------------------------------------------------ *)
(** ** [scipy.stats.linregress] ([scipy_exam_methods_examples.py])

    The computation of [scipy.stats.linregress(x, y)] for two arrays, over
    the reals: the means, the biased covariance matrix [np.cov(x, y, bias=1)]
    and the slope, intercept and correlation coefficient derived from them.
    The p-value and standard errors are not modelled. *)

Module LinRegress.

Local Open Scope R_scope.

Fixpoint sumR (l : list R) : R :=
  match l with
  | [] => 0
  | x :: l' => x + sumR l'
  end.

(** [np.mean]. *)
Definition meanR (l : list R) : R := sumR l / INR (List.length l).

(** Entry [(x, y)] of [np.cov(x, y, bias=1)]: the mean of the products of
    the deviations from the means. *)
Definition cov_bias (xs ys : list R) : R :=
  let mx := meanR xs in
  let my := meanR ys in
  sumR (map (fun p => (fst p - mx) * (snd p - my)) (combine xs ys))
    / INR (List.length xs).

(** [np.amax(x) == np.amin(x)]: all values equal. *)
Definition all_identical (xs : list R) : bool :=
  match xs with
  | [] => true
  | x0 :: _ => forallb (fun x => if Req_EM_T x x0 then true else false) xs
  end.

(** Outcome of [linregress]: a raised [ValueError], a result whose slope and
    intercept are NaN (a single point), or slope, intercept and r-value.
    The checks are those of [linregress]'s own body; scipy versions that
    wrap it in [_axis_nan_policy] answer inputs of at most one point with
    NaN before the body runs, so only inputs of two or more points of
    equal length are modelled version-independently. *)
Inductive linreg_result :=
| LinValueError
| LinNaN
| LinOk (slope intercept rvalue : R).

Definition linregress (xs ys : list R) : linreg_result :=
  if ((List.length xs =? 0)%nat || (List.length ys =? 0)%nat) then LinValueError
  else if negb (List.length xs =? List.length ys)%nat then LinValueError
  else if all_identical xs && (1 <? List.length xs)%nat then LinValueError
  else if (List.length xs =? 1)%nat then LinNaN
  else
    let ssxm := cov_bias xs xs in
    let ssxym := cov_bias xs ys in
    let ssym := cov_bias ys ys in
    let r :=
      if Req_EM_T ssxm 0 then 0
      else if Req_EM_T ssym 0 then 0
      else
        let r0 := ssxym / sqrt (ssxm * ssym) in
        if Rlt_dec 1 r0 then 1
        else if Rlt_dec r0 (-1) then -1
        else r0 in
    let slope := ssxym / ssxm in
    let intercept := meanR ys - slope * meanR xs in
    LinOk slope intercept r.

(** The call of the script:
    [stats.linregress([0, 1, 2, 3], [1.0, 2.0, 2.9, 4.1])]. *)
Definition snippet_linregress : linreg_result :=
  linregress [0; 1; 2; 3] [1; 2; 29 / 10; 41 / 10].

(** Points on the line [y = 2x + 1]. *)
Definition line (x : R) : R := 2 * x + 1.

End LinRegress.

(* ------------------------------------------------------------------ *)
(** ** Delimited text: [pandas.read_csv] ([pandas_examples.py])

    The reader is modelled as the script calls it:
    [pd.read_csv(path, sep=";", index_col="id", parse_dates=["date"])] with
    every other option at its default.  Lines end at ["\n"]; a line that is
    empty or holds only spaces and tabs is skipped ([skip_blank_lines=True]); a field equal to one of pandas'
    default missing-value spellings ([keep_default_na=True]) is missing;
    each column is typed from all its non-missing fields: a column listed in
    [parse_dates] whose fields are all ISO dates in the [Timestamp] range
    holds dates, otherwise a column of integer literals is numeric, a column
    of boolean literals is boolean, and any other column holds text.
    Quoting with the double-quote character, ["\r"] line ends, numbers
    other than plain integer literals (decimal fractions, exponents,
    surrounding whitespace, infinities: [float_like] below recognises them),
    and the renaming of duplicate and empty column names are not modelled;
    integers stay exact, which [float64] guarantees up to 2^53. *)

Module Csv.

Local Open Scope Z_scope.

Definition nl : ascii := ascii_of_nat 10.
Definition cr : ascii := ascii_of_nat 13.
Definition dquote : ascii := ascii_of_nat 34.

(** A decoded field. *)
Inductive cell :=
| CNum (z : Z)
| CBool (b : bool)
| CDate (y m d : Z)
| CText (s : string)
| CNA.

(** The dtype of a decoded column. *)
Inductive col_kind := KNum | KBool | KDate | KText.

(** Splitting on a delimiter: [s.split(c)], always at least one piece. *)
Fixpoint split_on (c : ascii) (s : string) : list string :=
  match s with
  | EmptyString => [EmptyString]
  | String x s' =>
      if Ascii.eqb x c then EmptyString :: split_on c s'
      else match split_on c s' with
           | f :: fs => String x f :: fs
           | [] => [String x EmptyString]
           end
  end.

(** [c.join(fs)]. *)
Fixpoint join_with (c : ascii) (fs : list string) : string :=
  match fs with
  | [] => EmptyString
  | [f] => f
  | f :: fs' => append f (String c (join_with c fs'))
  end.

(** pandas' default missing-value spellings ([STR_NA_VALUES]). *)
Definition na_values : list string :=
  [""; "#N/A"; "#N/A N/A"; "#NA"; "-1.#IND"; "-1.#QNAN"; "-NaN"; "-nan";
   "1.#IND"; "1.#QNAN"; "<NA>"; "N/A"; "NA"; "NULL"; "NaN"; "None"; "n/a";
   "nan"; "null"]%string.

Definition is_na (s : string) : bool :=
  existsb (fun t => String.eqb s t) na_values.

(** Default [true_values] and [false_values]. *)
Definition true_tokens : list string := ["True"; "TRUE"; "true"]%string.
Definition false_tokens : list string := ["False"; "FALSE"; "false"]%string.

Definition is_bool_token (s : string) : bool :=
  existsb (String.eqb s) true_tokens || existsb (String.eqb s) false_tokens.

(** An integer literal: optional sign, then decimal digits. *)
Definition parse_int (s : string) : option Z :=
  match s with
  | EmptyString => None
  | String c s' =>
      if Ascii.eqb c "+"%char
      then option_map Z.of_uint (DecimalString.NilZero.uint_of_string s')
      else option_map Z.of_int (DecimalString.NilZero.int_of_string s)
  end.

(** Decimal printing of an integer, as [str(int)]. *)
Definition print_int (z : Z) : string := DecimalString.NilZero.string_of_int (Z.to_int z).

Definition digit_val (c : ascii) : option Z :=
  let n := nat_of_ascii c in
  if ((48 <=? n) && (n <=? 57))%nat then Some (Z.of_nat n - 48) else None.

Definition digit_char (k : Z) : ascii := ascii_of_nat (Z.to_nat (48 + k)).

Definition is_leap (y : Z) : bool :=
  ((y mod 4 =? 0) && negb (y mod 100 =? 0)) || (y mod 400 =? 0).

Definition days_in_month (y m : Z) : Z :=
  if (m =? 2) then (if is_leap y then 29 else 28)
  else if (m =? 4) || (m =? 6) || (m =? 9) || (m =? 11) then 30
  else 31.

(** Lexicographic order on calendar dates. *)
Definition date_le (y1 m1 d1 y2 m2 d2 : Z) : bool :=
  (y1 <? y2) || ((y1 =? y2) && ((m1 <? m2) || ((m1 =? m2) && (d1 <=? d2)))).

(** A calendar date whose midnight lies in the [Timestamp] range
    1677-09-21 00:12:43 .. 2262-04-11 23:47:16. *)
Definition valid_date (y m d : Z) : bool :=
  (1 <=? m) && (m <=? 12) && (1 <=? d) && (d <=? days_in_month y m)
  && date_le 1677 9 22 y m d && date_le y m d 2262 4 11.

(** An ISO date [YYYY-MM-DD]. *)
Definition parse_date (s : string) : option (Z * Z * Z) :=
  match s with
  | String y1 (String y2 (String y3 (String y4 (String s1
      (String m1 (String m2 (String s2 (String d1 (String d2 EmptyString))))))))) =>
      match digit_val y1, digit_val y2, digit_val y3, digit_val y4,
            digit_val m1, digit_val m2, digit_val d1, digit_val d2 with
      | Some a1, Some a2, Some a3, Some a4, Some b1, Some b2, Some e1, Some e2 =>
          let y := a1 * 1000 + a2 * 100 + a3 * 10 + a4 in
          let m := b1 * 10 + b2 in
          let d := e1 * 10 + e2 in
          if Ascii.eqb s1 "-"%char && Ascii.eqb s2 "-"%char && valid_date y m d
          then Some (y, m, d) else None
      | _, _, _, _, _, _, _, _ => None
      end
  | _ => None
  end.

(** ISO printing of a date, as [date.isoformat()]. *)
Definition print_date (y m d : Z) : string :=
  String (digit_char (y / 1000)) (String (digit_char ((y / 100) mod 10))
  (String (digit_char ((y / 10) mod 10)) (String (digit_char (y mod 10))
  (String "-"%char (String (digit_char (m / 10)) (String (digit_char (m mod 10))
  (String "-"%char (String (digit_char (d / 10)) (String (digit_char (d mod 10))
   EmptyString))))))))).

Definition is_some {X : Type} (o : option X) : bool :=
  match o with Some _ => true | None => false end.

Fixpoint all_chars (p : ascii -> bool) (s : string) : bool :=
  match s with
  | EmptyString => true
  | String c s' => p c && all_chars p s'
  end.

(** A line skipped by the tokenizer ([skip_blank_lines=True]): empty, or
    made only of spaces and tabs other than the delimiter. *)
Definition blank_line (sep : ascii) (l : string) : bool :=
  all_chars (fun c => (Ascii.eqb c " "%char || Ascii.eqb c (ascii_of_nat 9))
                      && negb (Ascii.eqb c sep)) l.

(** [isspace_ascii]: space, tab, line feed, vertical tab, form feed,
    carriage return. *)
Definition is_space (c : ascii) : bool :=
  let n := nat_of_ascii c in ((n =? 32) || ((9 <=? n) && (n <=? 13)))%nat.

Fixpoint skip_spaces (s : string) : string :=
  match s with
  | EmptyString => EmptyString
  | String c s' => if is_space c then skip_spaces s' else s
  end.

Definition skip_sign (s : string) : string :=
  match s with
  | EmptyString => EmptyString
  | String c s' => if Ascii.eqb c "+"%char || Ascii.eqb c "-"%char then s' else s
  end.

(** The decimal digits at the front of [s]: how many, and what follows. *)
Fixpoint skip_digits (s : string) : nat * string :=
  match s with
  | EmptyString => (O, EmptyString)
  | String c s' =>
      if is_some (digit_val c) then let (k, r) := skip_digits s' in (S k, r)
      else (O, s)
  end.

(** An exponent [e], [E] with an optional sign and at least one digit at the
    front of [s] is consumed; without digits nothing is. *)
Definition skip_exponent (s : string) : string :=
  match s with
  | EmptyString => EmptyString
  | String c s' =>
      if Ascii.eqb c "e"%char || Ascii.eqb c "E"%char then
        let (k, r) := skip_digits (skip_sign s') in if (0 <? k)%nat then r else s
      else s
  end.

Definition lower_char (c : ascii) : ascii :=
  let n := nat_of_ascii c in
  if ((65 <=? n) && (n <=? 90))%nat then ascii_of_nat (n + 32) else c.

Fixpoint lower (s : string) : string :=
  match s with
  | EmptyString => EmptyString
  | String c s' => String (lower_char c) (lower s')
  end.

(** The spellings of infinity the reader accepts, compared without case. *)
Definition inf_words : list string :=
  ["inf"; "+inf"; "-inf"; "infinity"; "+infinity"; "-infinity"]%string.

(** A field the reader converts to a number when its column allows it: the
    syntax of [str_to_int64] and [precise_xstrtod] (optional whitespace, an
    optional sign, digits with at most one decimal point and at least one
    digit, an optional exponent, optional whitespace), or a spelling of
    infinity. *)
Definition float_like (s : string) : bool :=
  let s1 := skip_sign (skip_spaces s) in
  let (k1, s2) := skip_digits s1 in
  let (k2, s3) := match s2 with
                  | String c s' => if Ascii.eqb c "."%char then skip_digits s' else (O, s2)
                  | EmptyString => (O, s2)
                  end in
  ((0 <? k1 + k2)%nat && String.eqb (skip_spaces (skip_exponent s3)) EmptyString)
  || existsb (String.eqb (lower s)) inf_words.

(** dtype inference for one column from its raw fields. *)
Definition infer_kind (parse_as_date : bool) (raws : list string) : col_kind :=
  let vals := filter (fun s => negb (is_na s)) raws in
  if parse_as_date && forallb (fun s => is_some (parse_date s)) vals then KDate
  else if forallb (fun s => is_some (parse_int s)) vals then KNum
  else if forallb is_bool_token vals then KBool
  else KText.

(** Conversion of one raw field in a column of the given dtype. *)
Definition conv (k : col_kind) (s : string) : cell :=
  if is_na s then CNA
  else match k with
       | KNum => match parse_int s with Some z => CNum z | None => CText s end
       | KBool => CBool (existsb (String.eqb s) true_tokens)
       | KDate => match parse_date s with
                  | Some (y, m, d) => CDate y m d
                  | None => CText s
                  end
       | KText => CText s
       end.

End Csv.

(** A data frame: the index labels, column names and dtypes, and the rows
    (each row holds one cell per column, the index excluded). *)
Module Frame.
Import Csv.
Local Open Scope Z_scope.

Record frame := mkFrame {
  f_index : list cell;
  f_names : list string;
  f_kinds : list col_kind;
  f_rows : list (list cell)
}.

(** A short row is filled with missing fields up to the header's width. *)
Definition pad_to (n : nat) (r : list string) : list string :=
  r ++ repeat EmptyString (n - List.length r).

Definition mem_str (x : string) (l : list string) : bool := existsb (String.eqb x) l.

(** [pd.read_csv(text, sep=sep, parse_dates=parse_dates)]; [None] is a
    raised [EmptyDataError] or [ParserError] (a row longer than the
    header).  The index is the default [RangeIndex]. *)
Definition read_csv (sep : ascii) (parse_dates : list string) (text : string)
  : option frame :=
  match filter (fun l => negb (blank_line sep l)) (split_on nl text) with
  | [] => None
  | h :: body =>
      let names := split_on sep h in
      let ncol := List.length names in
      let raw := map (split_on sep) body in
      if existsb (fun r => (ncol <? List.length r)%nat) raw then None
      else
        let raw' := map (pad_to ncol) raw in
        let kinds :=
          map (fun j => infer_kind (mem_str (nth j names EmptyString) parse_dates)
                                   (map (fun r => nth j r EmptyString) raw'))
              (seq 0 ncol) in
        Some {| f_index := map (fun i => CNum (Z.of_nat i)) (seq 0 (List.length raw'));
                f_names := names;
                f_kinds := kinds;
                f_rows := map (fun r => map (fun p => conv (fst p) (snd p))
                                            (combine kinds r)) raw' |}
  end.

Fixpoint index_of (x : string) (l : list string) : option nat :=
  match l with
  | [] => None
  | y :: l' => if String.eqb y x then Some O else option_map S (index_of x l')
  end.

Definition remove_nth {X : Type} (n : nat) (l : list X) : list X :=
  firstn n l ++ skipn (S n) l.

(** [index_col=name]: the column becomes the index; [None] is a [KeyError]. *)
Definition set_index (name : string) (f : frame) : option frame :=
  match index_of name (f_names f) with
  | None => None
  | Some j =>
      Some {| f_index := map (fun r => nth j r CNA) (f_rows f);
              f_names := remove_nth j (f_names f);
              f_kinds := remove_nth j (f_kinds f);
              f_rows := map (remove_nth j) (f_rows f) |}
  end.

(** Lines each terminated by ["\n"]. *)
Definition lines_text (ls : list string) : string :=
  fold_right (fun l acc => append l (String nl acc)) EmptyString ls.

(** [csv_text] of [pandas_examples.py], as written to [file.csv]. *)
Definition csv_text : string :=
  lines_text ["id;date;col;value;price;name";
              "1;2026-02-01;A;10;120;Alpha";
              "2;2026-02-02;A;20;80;Beta";
              "3;2026-02-03;B;30;;Gamma";
              "4;2026-02-04;B;40;200;Delta"]%string.

Definition semicolon : ascii := ";"%char.

(** [df = pd.read_csv("file.csv", sep=";", index_col="id",
    parse_dates=["date"])]. *)
Definition df : option frame :=
  match read_csv semicolon ["date"%string] csv_text with
  | Some f => set_index "id" f
  | None => None
  end.

(** The frame [df] itself (the read succeeds on [csv_text]). *)
Definition df_frame : frame :=
  match df with Some f => f | None => mkFrame [] [] [] [] end.

End Frame.

(* ------------------------------------------------------------------ *)
(** ** Operations on the frame ([pandas_examples.py], snippets 2 to 7) *)

Module Pandas.
Import Csv Frame.
Local Open Scope R_scope.

Definition is_missing (c : cell) : bool :=
  match c with CNA => true | _ => false end.

(** The value of a cell in a numeric column (a bool counts as 0 or 1). *)
Definition cell_int (c : cell) : option Z :=
  match c with
  | CNum z => Some z
  | CBool b => Some (if b then 1 else 0)%Z
  | _ => None
  end.

(** The non-missing values of a numeric column, in order. *)
Definition values (cs : list cell) : list Z :=
  fold_right (fun c acc => match cell_int c with
                           | Some v => v :: acc
                           | None => acc
                           end) [] cs.

Definition sumZ (l : list Z) : Z := fold_right Z.add 0%Z l.

(** [Series.mean()] with [skipna=True], as a rational in lowest terms;
    [None] is NaN (no value). *)
Definition mean_skipna (cs : list cell) : option Q :=
  match values cs with
  | [] => None
  | vs => Some (Qred (inject_Z (sumZ vs) / inject_Z (Z.of_nat (List.length vs))))
  end.

(** Column [j] of a frame. *)
Definition column (j : nat) (f : frame) : list cell :=
  map (fun r => nth j r CNA) (f_rows f).

(** [numeric_only]: int and float columns, and bool columns without a
    missing value (a missing value turns a bool column into [object]). *)
Definition is_numeric_col (k : col_kind) (cs : list cell) : bool :=
  match k with
  | KNum => true
  | KBool => forallb (fun c => negb (is_missing c)) cs
  | KDate | KText => false
  end.

(** [dropna(how=...)]. *)
Inductive how := HowAny | HowAll.

Definition keep_row (h : how) (r : list cell) : bool :=
  match h with
  | HowAny => forallb (fun c => negb (is_missing c)) r
  | HowAll => existsb (fun c => negb (is_missing c)) r
  end.

Definition dropna (h : how) (f : frame) : frame :=
  let kept := filter (fun p => keep_row h (snd p)) (combine (f_index f) (f_rows f)) in
  {| f_index := map fst kept; f_names := f_names f; f_kinds := f_kinds f;
     f_rows := map snd kept |}.

(** Equality and order of group keys ([groupby(..., sort=True)]). *)
Definition cell_eqb (a b : cell) : bool :=
  match a, b with
  | CNum x, CNum y => Z.eqb x y
  | CBool x, CBool y => Bool.eqb x y
  | CDate y1 m1 d1, CDate y2 m2 d2 => Z.eqb y1 y2 && Z.eqb m1 m2 && Z.eqb d1 d2
  | CText s, CText t => String.eqb s t
  | CNA, CNA => true
  | _, _ => false
  end.

Definition cell_leb (a b : cell) : bool :=
  match a, b with
  | CNum x, CNum y => Z.leb x y
  | CBool x, CBool y => implb x y
  | CDate y1 m1 d1, CDate y2 m2 d2 => date_le y1 m1 d1 y2 m2 d2
  | CText s, CText t => String.leb s t
  | _, _ => true
  end.

Fixpoint insert_key (k : cell) (ks : list cell) : list cell :=
  match ks with
  | [] => [k]
  | k' :: ks' =>
      if cell_eqb k k' then ks
      else if cell_leb k k' then k :: ks
      else k' :: insert_key k ks'
  end.

(** The distinct non-missing keys, sorted ([dropna=True]). *)
Definition group_keys (cs : list cell) : list cell :=
  fold_right insert_key [] (filter (fun c => negb (is_missing c)) cs).

(** Mean of column [j] over the records whose column [g] equals [k]. *)
Definition group_mean (f : frame) (g j : nat) (k : cell) : option Q :=
  mean_skipna (map (fun r => nth j r CNA)
                   (filter (fun r => cell_eqb (nth g r CNA) k) (f_rows f))).

(** [f.groupby(name).mean(numeric_only=True)]: one row per key, one
    column per numeric column other than the key; [None] is a [KeyError]. *)
Definition groupby_mean (f : frame) (name : string)
  : option (list (cell * list (string * option Q))) :=
  match index_of name (f_names f) with
  | None => None
  | Some g =>
      let cols := filter (fun j => negb (Nat.eqb j g)
                                   && is_numeric_col (nth j (f_kinds f) KText) (column j f))
                         (seq 0 (List.length (f_names f))) in
      Some (map (fun k => (k, map (fun j => (nth j (f_names f) EmptyString,
                                             group_mean f g j k)) cols))
                (group_keys (column g f)))
  end.

(** Pearson correlation over the pairwise-complete observations
    ([min_periods=1]); [None] is NaN. *)
Definition complete_pairs (xs ys : list cell) : list (R * R) :=
  fold_right (fun p acc => match cell_int (fst p), cell_int (snd p) with
                           | Some x, Some y => (IZR x, IZR y) :: acc
                           | _, _ => acc
                           end) [] (combine xs ys).

Definition pearson (ps : list (R * R)) : option R :=
  match ps with
  | [] => None
  | _ =>
      let n := INR (List.length ps) in
      let mx := LinRegress.sumR (map fst ps) / n in
      let my := LinRegress.sumR (map snd ps) / n in
      let sxx := LinRegress.sumR (map (fun p => (fst p - mx) * (fst p - mx)) ps) in
      let syy := LinRegress.sumR (map (fun p => (snd p - my) * (snd p - my)) ps) in
      let sxy := LinRegress.sumR (map (fun p => (fst p - mx) * (snd p - my)) ps) in
      let divisor := sqrt (sxx * syy) in
      if Req_EM_T divisor 0 then None else Some (sxy / divisor)
  end.

Definition corr_pair (xs ys : list cell) : option R := pearson (complete_pairs xs ys).

(** [f.corr(method="pearson", numeric_only=True)]. *)
Definition corr (f : frame) : list (string * list (string * option R)) :=
  let cols := filter (fun j => is_numeric_col (nth j (f_kinds f) KText) (column j f))
                     (seq 0 (List.length (f_names f))) in
  map (fun i => (nth i (f_names f) EmptyString,
                 map (fun j => (nth j (f_names f) EmptyString,
                                corr_pair (column i f) (column j f))) cols)) cols.

(** [f[name] > t] for an integer [t]: a missing value compares false;
    [None] is a [TypeError] (a non-numeric column) or a [KeyError]. *)
Definition gt_mask (f : frame) (name : string) (t : Z) : option (list bool) :=
  match index_of name (f_names f) with
  | None => None
  | Some j =>
      match nth j (f_kinds f) KText with
      | KNum | KBool =>
          Some (map (fun c => match c with
                              | CNum z => Z.ltb t z
                              | CBool b => Z.ltb t (if b then 1 else 0)%Z
                              | _ => false
                              end) (column j f))
      | KDate | KText => None
      end
  end.

(** [f.loc[mask, names]]: the selected records, with their index labels. *)
Definition loc (f : frame) (mask : list bool) (names : list string)
  : option (list (cell * list cell)) :=
  let js := map (fun n => index_of n (f_names f)) names in
  if existsb (fun o => negb (is_some o)) js then None
  else
    let js' := map (fun o => match o with Some j => j | None => O end) js in
    Some (map (fun p => (fst (fst p), map (fun j => nth j (snd (fst p)) CNA) js'))
              (filter snd (combine (combine (f_index f) (f_rows f)) mask))).

(** The snippets applied to [df]. *)
Definition clean_any : option frame := option_map (dropna HowAny) df.
Definition clean_all : option frame := option_map (dropna HowAll) df.

Definition gb : option (list (cell * list (string * option Q))) :=
  match df with Some f => groupby_mean f "col" | None => None end.

Definition expensive : option (list (cell * list cell)) :=
  match df with
  | Some f =>
      match gt_mask f "price" 100 with
      | Some mask => loc f mask ["name"; "price"]%string
      | None => None
      end
  | None => None
  end.

Fixpoint update_nth {X : Type} (i : nat) (g : X -> X) (l : list X) : list X :=
  match l, i with
  | [], _ => []
  | x :: l', O => g x :: l'
  | x :: l', S i' => x :: update_nth i' g l'
  end.

(** Replacing field [j] of record [i] by [v], e.g. [0] for a missing
    field ([f.iloc[i, j] = v] on a copy). *)
Definition set_cell (i j : nat) (v : cell) (f : frame) : frame :=
  {| f_index := f_index f; f_names := f_names f; f_kinds := f_kinds f;
     f_rows := update_nth i (update_nth j (fun _ => v)) (f_rows f) |}.

(** Dropping record [i] ([f.drop(label)] for the label at position [i]). *)
Definition drop_row (i : nat) (f : frame) : frame :=
  {| f_index := remove_nth i (f_index f); f_names := f_names f;
     f_kinds := f_kinds f; f_rows := remove_nth i (f_rows f) |}.

End Pandas.

(* ------------------------------------------------------------------ *)
(** ** Writing a dataset in the delimited format

    The repository writes its table as a literal ([csv_text]); the writer
    below produces that text from typed records: the header line, then one
    line per record, fields joined by the delimiter, a missing field left
    blank, integers in decimal, dates in ISO form. *)

Module CsvWrite.
Import Csv Frame.
Local Open Scope Z_scope.

(** A dataset with declared column types. *)
Record dataset := mkDataset {
  d_names : list string;
  d_types : list col_kind;
  d_rows : list (list cell)
}.

Definition print_cell (c : cell) : string :=
  match c with
  | CNum z => print_int z
  | CBool b => if b then "True"%string else "False"%string
  | CDate y m d => print_date y m d
  | CText s => s
  | CNA => EmptyString
  end.

Definition encode (sep : ascii) (D : dataset) : string :=
  lines_text (join_with sep (d_names D)
              :: map (fun r => join_with sep (map print_cell r)) (d_rows D)).

Definition is_date_kind (t : col_kind) : bool :=
  match t with KDate => true | _ => false end.

(** The names of the date-typed columns: the [parse_dates] of the format. *)
Definition date_cols (D : dataset) : list string :=
  map fst (filter (fun p => is_date_kind (snd p)) (combine (d_names D) (d_types D))).

(** Decoding: [pd.read_csv] with that delimiter and those date columns. *)
Definition decode (sep : ascii) (D : dataset) (text : string) : option frame :=
  read_csv sep (date_cols D) text.

(** A decoded field against the written one, up to the coercions of the
    format: equal, or a numeric string read back as a number. *)
Definition cell_coerced (dec orig : cell) : Prop :=
  dec = orig \/ exists s z, orig = CText s /\ parse_int s = Some z /\ dec = CNum z.

(** The round trip of a dataset through the semicolon format. *)
Definition csv_roundtrip (D : dataset) : Prop :=
  exists f, decode semicolon D (encode semicolon D) = Some f
            /\ f_names f = d_names D
            /\ Forall2 (Forall2 cell_coerced) (f_rows f) (d_rows D).

Fixpoint has_char (c : ascii) (s : string) : bool :=
  match s with
  | EmptyString => false
  | String x s' => Ascii.eqb x c || has_char c s'
  end.

(** Printable ASCII and the tab. *)
Definition text_char (c : ascii) : bool :=
  let n := nat_of_ascii c in (((32 <=? n) && (n <=? 126)) || (n =? 9))%nat.

(** Characters a field must not hold to be written without quoting, and
    plain ASCII text. *)
Definition special_free (s : string) : bool :=
  negb (has_char semicolon s || has_char nl s || has_char cr s || has_char dquote s)
  && all_chars text_char s.

(** A text that the reader takes for a number is an integer literal of at
    most 2^53 in absolute value. *)
Definition number_ok (s : string) : bool :=
  match parse_int s with
  | Some z => Z.abs z <=? 2 ^ 53
  | None => negb (float_like s)
  end.

(** A text field that reads back as itself or as a number. *)
Definition text_safe (s : string) : bool :=
  negb (is_na s) && negb (is_bool_token s) && special_free s && number_ok s.

(** The fields a column of a given declared type may hold. *)
Definition fits (t : col_kind) (c : cell) : bool :=
  match t, c with
  | _, CNA => true
  | KNum, CNum z => Z.abs z <=? 2 ^ 53
  | KDate, CDate y m d => valid_date y m d
  | KText, CText s => text_safe s
  | _, _ => false
  end.

(** The characters [print_int] and [print_date] write: digits and the minus sign. *)
Definition num_char (c : ascii) : bool := is_some (digit_val c) || Ascii.eqb c "-"%char.

Fixpoint num_string (s : string) : bool :=
  match s with
  | EmptyString => true
  | String c s' => num_char c && num_string s'
  end.

(** The datasets of the format, with the conditions on their fields. *)
Definition well_formed (D : dataset) : Prop :=
  d_names D <> []
  /\ NoDup (d_names D)
  /\ Forall (fun n => n <> EmptyString /\ special_free n = true) (d_names D)
  /\ List.length (d_types D) = List.length (d_names D)
  /\ Forall (fun r => Forall2 (fun t c => fits t c = true) (d_types D) r) (d_rows D)
  /\ (2 <= List.length (d_names D)
      \/ Forall (fun n => blank_line semicolon n = false) (d_names D)
         /\ Forall (fun r => Forall (fun c => blank_line semicolon (print_cell c) = false) r)
                   (d_rows D))%nat.

(** The table of [pandas_examples.py] as typed records. *)
Definition sample : dataset :=
  {| d_names := ["id"; "date"; "col"; "value"; "price"; "name"]%string;
     d_types := [KNum; KDate; KText; KNum; KNum; KText];
     d_rows :=
       [[CNum 1; CDate 2026 2 1; CText "A"; CNum 10; CNum 120; CText "Alpha"];
        [CNum 2; CDate 2026 2 2; CText "A"; CNum 20; CNum 80; CText "Beta"];
        [CNum 3; CDate 2026 2 3; CText "B"; CNum 30; CNA; CText "Gamma"];
        [CNum 4; CDate 2026 2 4; CText "B"; CNum 40; CNum 200; CText "Delta"]]%string |}.

End CsvWrite.

(* ------------------------------------------------------------------ *)
(** ** Named-array archives: [np.savez] and [np.load] ([numpy_examples.py])

    [np.savez(path, k1=a1, k2=a2, ...)] stores each array as the member
    [k.npy] of a zip archive; [np.load(path)] returns an [NpzFile] whose
    [files] lists the member names without [.npy] and whose item [key] is
    the member [key], or else the member [key.npy].  Arrays are stored in
    binary, so their values come back exactly. *)

Module Npz.
Local Open Scope R_scope.

Definition npy_suffix : string := ".npy".

Definition archive := list (string * list R).

Definition savez (kwargs : list (string * list R)) : archive :=
  map (fun p => (append (fst p) npy_suffix, snd p)) kwargs.

Fixpoint strip_npy (s : string) : option string :=
  if String.eqb s npy_suffix then Some EmptyString
  else match s with
       | EmptyString => None
       | String c s' => option_map (String c) (strip_npy s')
       end.

(** [NpzFile.files]. *)
Definition files (a : archive) : list string :=
  map (fun p => match strip_npy (fst p) with Some k => k | None => fst p end) a.

Fixpoint lookup (k : string) (a : archive) : option (list R) :=
  match a with
  | [] => None
  | (n, v) :: a' => if String.eqb n k then Some v else lookup k a'
  end.

(** [NpzFile.__getitem__]; [None] is a [KeyError]. *)
Definition getitem (a : archive) (key : string) : option (list R) :=
  match lookup key a with
  | Some v => Some v
  | None => lookup (append key npy_suffix) a
  end.

(** [arr1 = np.arange(5)], [arr2 = np.linspace(0, 1, 3)]. *)
Definition arr1 : list R := [0; 1; 2; 3; 4].
Definition arr2 : list R := [0; 1 / 2; 1].

(** [np.savez("data.npz", name1=arr1, name2=arr2); np.load("data.npz")]. *)
Definition loaded : archive := savez [("name1"%string, arr1); ("name2"%string, arr2)].

(** Python keyword names: identifiers, which hold no dot. *)
Definition dot : ascii := "."%char.

Definition npz_roundtrip (kwargs : list (string * list R)) : Prop :=
  files (savez kwargs) = map fst kwargs
  /\ Forall (fun p => getitem (savez kwargs) (fst p) = Some (snd p)) kwargs.

End Npz.

(* ------------------------------------------------------------------ *)
(** ** More of the scripts: built-ins, numpy, pandas selection, scipy *)

Module PyBuiltins.
(** [zip(l1, l2)]: the pairs of the elements at the same position, up to the
    end of the shorter list. *)
Fixpoint py_zip {A B : Type} (l1 : list A) (l2 : list B) : list (A * B) :=
  match l1, l2 with
  | x :: l1', y :: l2' => (x, y) :: py_zip l1' l2'
  | _, _ => []
  end.

(** Snippet 1: [list(zip([1, 2, 3], ["a", "b", "c"]))]. *)
Definition snippet_zip : list (Z * string) := py_zip [1; 2; 3]%Z ["a"; "b"; "c"]%string.
End PyBuiltins.

Module NumPy.
Local Open Scope Z_scope.

(** numpy's [int64] arithmetic wraps around. *)
Definition wrap64 (z : Z) : Z := (z + 2 ^ 63) mod 2 ^ 64 - 2 ^ 63.

(** [a + b] on 1-D [int64] arrays, with broadcasting of a length-1
    operand; [None] is the [ValueError] of operands that do not broadcast. *)
Definition np_add (a b : list Z) : option (list Z) :=
  let la := List.length a in
  let lb := List.length b in
  if Nat.eqb la lb then Some (map (fun p => wrap64 (fst p + snd p)) (combine a b))
  else if Nat.eqb la 1 then Some (map (fun y => wrap64 (hd 0 a + y)) b)
  else if Nat.eqb lb 1 then Some (map (fun x => wrap64 (x + hd 0 b)) a)
  else None.

(** Snippet 1: [np.array([1, 2, 3]) + np.array([10, 20, 30])]. *)
Definition snippet_add : option (list Z) := np_add [1; 2; 3] [10; 20; 30].

(** [ceil(a / b)] for [b <> 0]. *)
Definition ceil_div (a b : Z) : Z := - ((- a) / b).

(** [np.arange(start, stop, step)] with integer arguments: the values
    [start + i * step] for [i < ceil((stop - start) / step)];
    [None] is the [ZeroDivisionError] of a zero step. *)
Definition arange (start stop step : Z) : option (list Z) :=
  if step =? 0 then None
  else
    let n := Z.max 0 (ceil_div (stop - start) step) in
    Some (map (fun i => start + step * Z.of_nat i) (seq 0 (Z.to_nat n))).

(** Snippet 2: [np.arange(0, 10, 2)]. *)
Definition snippet_arange : option (list Z) := arange 0 10 2.

(** A 2-D array: its shape and its elements in row-major order. *)
Record ndarray2 (X : Type) := mk2 { rows : nat; cols : nat; data : list X }.
Arguments mk2 {X}.
Arguments rows {X}.
Arguments cols {X}.
Arguments data {X}.

(** [a.shape]. *)
Definition shape {X : Type} (m : ndarray2 X) : nat * nat := (rows m, cols m).

(** [a.reshape((r, c))] of a 1-D array; [None] is the [ValueError] of a
    size mismatch. *)
Definition reshape {X : Type} (a : list X) (r c : nat) : option (ndarray2 X) :=
  if Nat.eqb (r * c) (List.length a) then Some (mk2 r c a) else None.

(** [m[i, j]]. *)
Definition get2 {X : Type} (d : X) (m : ndarray2 X) (i j : nat) : X :=
  nth (i * cols m + j) (data m) d.

(** [m.T]: element [(j, i)] of the result is element [(i, j)] of [m]. *)
Definition transpose {X : Type} (d : X) (m : ndarray2 X) : ndarray2 X :=
  mk2 (cols m) (rows m)
      (map (fun k => nth ((k mod rows m) * cols m + k / rows m) (data m) d)
           (seq 0 (rows m * cols m))).

(** Snippet 7 and 8: [r = np.arange(12).reshape((3, 4))] and [r.T.shape]. *)
Definition snippet_r : option (ndarray2 Z) :=
  match arange 0 12 1 with Some a => reshape a 3 4 | None => None end.

(** [a[mask]] for a boolean mask; [None] is the [IndexError] of a mask of
    another length. *)
Definition bool_index {X : Type} (a : list X) (mask : list bool) : option (list X) :=
  if Nat.eqb (List.length mask) (List.length a)
  then Some (map fst (filter snd (combine a mask)))
  else None.

(** [z % 2 == 0] (Python's [%] takes the sign of the divisor). *)
Definition even_mask (z : list Z) : list bool := map (fun x => Z.eqb (x mod 2) 0) z.

(** Snippet 9: [z[z % 2 == 0]]. *)
Definition snippet_evens : option (list Z) :=
  let z := [1; 2; 3; 4; 5; 6] in bool_index z (even_mask z).

End NumPy.

Module NumPyR.
Local Open Scope R_scope.

(** [np.linspace(start, stop, num)] ([endpoint=True]): [i * step + start]
    with [step = (stop - start) / (num - 1)], the last value set to [stop]. *)
Definition linspace (start stop : R) (num : nat) : list R :=
  let step := (stop - start) / INR (num - 1) in
  let y := map (fun i => INR i * step + start) (seq 0 num) in
  if (1 <? num)%nat then firstn (num - 1) y ++ [stop] else y.

End NumPyR.

Module PandasMore.
Import Csv Frame Pandas.

(** [l[a:b]] for non-negative bounds. *)
Definition py_slice {X : Type} (a b : nat) (l : list X) : list X :=
  firstn (b - a) (skipn a l).

(** [f.iloc[r0:r1, c0:c1]]. *)
Definition iloc (f : frame) (r0 r1 c0 c1 : nat) : frame :=
  {| f_index := py_slice r0 r1 (f_index f);
     f_names := py_slice c0 c1 (f_names f);
     f_kinds := py_slice c0 c1 (f_kinds f);
     f_rows := map (py_slice c0 c1) (py_slice r0 r1 (f_rows f)) |}.

(** Snippet 8: [subset = df.iloc[0:2, 0:3]]. *)
(** The dtype of a non-missing cell. *)
Definition cell_kind (c : cell) : option col_kind :=
  match c with
  | CNum _ => Some KNum
  | CBool _ => Some KBool
  | CDate _ _ _ => Some KDate
  | CText _ => Some KText
  | CNA => None
  end.

Definition subset : option frame := option_map (fun f => iloc f 0 2 0 3) df.

(** [cell_leb] restricted to keys of one dtype. *)
Definition key_le (a b : cell) : Prop := cell_kind a = cell_kind b /\ cell_leb a b = true.

End PandasMore.

Module SciPy.
Import LinRegress.
Local Open Scope R_scope.

(** Least-squares line through the points [(t_i, x_i)], returned as the
    residuals [x_i - (slope * t_i + intercept)]: the solution of
    [linalg.lstsq(A, x)] with [A = [t, 1]] of full rank, in closed form. *)
Definition lstsq_line_resid (ts xs : list R) : list R :=
  let mt := meanR ts in
  let mx := meanR xs in
  let stt := sumR (map (fun t => (t - mt) * (t - mt)) ts) in
  let stx := sumR (map (fun p => (fst p - mt) * (snd p - mx)) (combine ts xs)) in
  let slope := stx / stt in
  let intercept := mx - slope * mt in
  map (fun p => snd p - (slope * fst p + intercept)) (combine ts xs).

(** [signal.detrend(x)] ([type='linear'], [bp=0]) on a 1-D signal:
    the least-squares line against [A[:, 0] = arange(1, N + 1) / N] is
    removed. With one point the minimum-norm solution of the
    rank-deficient [lstsq] reproduces the point, so the result is [0];
    with none, [None] is the [ValueError] of [newdata.reshape(N, -1)]
    (an array of size 0 cannot be reshaped with [-1]). *)
Definition detrend (xs : list R) : option (list R) :=
  let n := List.length xs in
  if (n =? 0)%nat then None
  else if (n =? 1)%nat then Some (map (fun _ => 0) xs)
  else Some (lstsq_line_resid (map (fun i => INR (S i) / INR n) (seq 0 n)) xs).

(** [fft.fftfreq(n, d)]: [None] is the [ZeroDivisionError] of
    [val = 1.0 / (n * d)]. *)
Definition fftfreq (n : nat) (d : R) : option (list R) :=
  if Req_EM_T (INR n * d) 0 then None
  else
    let val := 1 / (INR n * d) in
    let N := ((n - 1) / 2 + 1)%nat in
    let p1 := map Z.of_nat (seq 0 N) in
    let p2 := map (fun i => (Z.of_nat i - Z.of_nat (n / 2))%Z) (seq 0 (n / 2)) in
    Some (map (fun k => IZR k * val) (p1 ++ p2)).

(** One step of a stable sort of the points by abscissa: [p] goes before
    the first point whose abscissa is not smaller. *)
Fixpoint insert_by_x (p : R * R) (l : list (R * R)) : list (R * R) :=
  match l with
  | [] => [p]
  | q :: l' => if Rle_dec (fst p) (fst q) then p :: l else q :: insert_by_x p l'
  end.

(** [np.argsort(x, kind="mergesort")] applied to the points (a stable sort). *)
Definition sort_by_x (ps : list (R * R)) : list (R * R) := fold_right insert_by_x [] ps.

(** [np.searchsorted(a, v)] ([side='left']) on a sorted array: the number
    of entries smaller than [v]. *)
Definition searchsorted (a : list R) (v : R) : nat :=
  List.length (filter (fun x => if Rlt_dec x v then true else false) a).

(** [interpolate.interp1d(x, y, kind="linear", fill_value="extrapolate")]:
    [None] is the [ValueError] of the constructor (lengths differ, fewer
    than [minval = 1] point); the interpolant ([_call_linear]) returns
    [None] where its value is not finite (two equal abscissae divide by
    zero).  The index is [searchsorted(x, v).clip(1, n - 1)]; for a single
    point the clip gives [0], and [x[0 - 1]] is [x[-1]], the same point as
    [x[0]], which the truncated subtraction [0 - 1 = 0] also reaches. *)
Definition interp1d (xs ys : list R) : option (R -> option R) :=
  if negb (List.length xs =? List.length ys)%nat then None
  else if (List.length xs <? 1)%nat then None
  else
    let ps := sort_by_x (combine xs ys) in
    let sx := map fst ps in
    let sy := map snd ps in
    let n := List.length ps in
    Some (fun v =>
      let i := Nat.min (Nat.max (searchsorted sx v) 1) (n - 1) in
      let x_lo := nth (i - 1) sx 0 in
      let x_hi := nth i sx 0 in
      let y_lo := nth (i - 1) sy 0 in
      let y_hi := nth i sy 0 in
      if Req_EM_T (x_hi - x_lo) 0 then None
      else Some ((y_hi - y_lo) / (x_hi - x_lo) * (v - x_lo) + y_lo)).

(** The first index of an entry of largest magnitude (BLAS [idamax]). *)
Fixpoint argmax_from (l : list R) (i best : nat) (bv : R) : nat :=
  match l with
  | [] => best
  | x :: l' =>
      if Rlt_dec bv (Rabs x) then argmax_from l' (S i) i (Rabs x)
      else argmax_from l' (S i) best bv
  end.

Definition idamax (l : list R) : nat :=
  match l with
  | [] => O
  | x :: l' => argmax_from l' 1 O (Rabs x)
  end.

(** Rows [0] and [p] exchanged. *)
Definition swap_rows {X : Type} (p : nat) (A : list X) (d : X) : list X :=
  map (fun i => nth (if (i =? 0)%nat then p else if (i =? p)%nat then O else i) A d)
      (seq 0 (List.length A)).

(** Determinant by LU factorisation with partial pivoting ([getrf]): the
    product of the pivots, negated for each row exchange. A zero pivot
    column is left unscaled. *)
Fixpoint lu_det (n : nat) (A : list (list R)) : R :=
  match n with
  | O => 1
  | S n' =>
      let p := idamax (map (fun r => nth 0 r 0) A) in
      let A' := swap_rows p A [] in
      let u := hd [] A' in
      let piv := nth 0 u 0 in
      let rest :=
        map (fun r => let l := if Req_EM_T piv 0 then 0 else nth 0 r 0 / piv in
                      map (fun j => nth (S j) r 0 - l * nth (S j) u 0) (seq 0 n'))
            (tl A') in
      (if (p =? 0)%nat then 1 else -1) * piv * lu_det n' rest
  end.

(** [linalg.det(A)]; [None] is the [ValueError] of a non-square input. *)
Definition det (A : list (list R)) : option R :=
  if forallb (fun r => List.length r =? List.length A)%nat A
  then Some (lu_det (List.length A) A) else None.

End SciPy.

(* ================================================================== *)
(** * Properties *)

(* ------------------------------------------------------------------ *)
(** ** Python lists *)

Section PyListFacts.
Import PyList.
Context {A : Type} (eq_dec : forall x y : A, {x = y} + {x <> y}).

Lemma skipn_nth_cons (L : list A) (i : nat) (x : A) :
  nth_error L i = Some x -> skipn i L = x :: skipn (S i) L.
Proof.
  revert i. induction L as [|y L IH]; intros [|i] H; simpl in H; try discriminate.
  - injection H as ->. reflexivity.
  - simpl. apply IH. exact H.
Qed.

Lemma py_del_split (i : Z) (L L' : list A) :
  py_del i L = inl L' -> exists pre x post, L = pre ++ x :: post /\ L' = pre ++ post.
Proof.
  unfold py_del. intro H.
  destruct (_ && _)%Z eqn:E; [|discriminate].
  injection H as <-.
  apply andb_true_iff in E as [E1 E2].
  apply Z.leb_le in E1. apply Z.ltb_lt in E2.
  set (j := Z.to_nat _).
  assert (Hj : (j < List.length L)%nat) by (unfold j; lia).
  destruct (nth_error L j) as [x|] eqn:Ex; [|apply nth_error_None in Ex; lia].
  exists (firstn j L), x, (skipn (S j) L). split; [|reflexivity].
  rewrite <- (skipn_nth_cons L j x Ex). symmetry. apply firstn_skipn.
Qed.

Lemma py_remove_split (v : A) (L L' : list A) :
  py_remove eq_dec v L = inl L' ->
  exists pre post, L = pre ++ v :: post /\ L' = pre ++ post.
Proof.
  revert L'. induction L as [|x L IH]; intros L' H; simpl in H; [discriminate|].
  unfold py_eq in H. destruct (eq_dec x v) as [->|Hne].
  - injection H as <-. exists [], L. split; reflexivity.
  - destruct (py_remove eq_dec v L) as [L''|e] eqn:E; [|discriminate].
    injection H as <-. destruct (IH L'' eq_refl) as [pre [post [-> ->]]].
    exists (x :: pre), post. split; reflexivity.
Qed.

Lemma py_pop_split (L L' : list A) (x : A) :
  py_pop L = inl (x, L') -> L = L' ++ [x].
Proof.
  unfold py_pop. intro H.
  destruct (rev L) as [|y r] eqn:E; [discriminate|].
  injection H as <- <-.
  rewrite <- (rev_involutive L), E. reflexivity.
Qed.

Lemma objs_hwrite (a b : nat) (l : list A) (h : heap A) :
  objs (hwrite a l h) b = if Nat.eqb b a then l else objs h b.
Proof. reflexivity. Qed.

(** The comprehension loop writes only to its result object, which collects
    the kept elements of the rest of [L]. *)
Lemma comp_loop_spec (v : A) (a r : nat) (L : list A) (Har : a <> r) :
  forall fuel i h, objs h a = L -> (List.length L <= fuel + i)%nat ->
  next (comp_loop eq_dec fuel v a r i h) = next h
  /\ (forall b, b <> r -> objs (comp_loop eq_dec fuel v a r i h) b = objs h b)
  /\ objs (comp_loop eq_dec fuel v a r i h) r
     = objs h r ++ filter_ne eq_dec v (skipn i L).
Proof.
  intro fuel. induction fuel as [|fuel IH]; intros i h HL Hlen; simpl.
  - split; [reflexivity|]. split; [reflexivity|].
    rewrite skipn_all2 by lia. simpl. rewrite app_nil_r. reflexivity.
  - rewrite HL. destruct (nth_error L i) as [x|] eqn:Ex.
    + set (h1 := if negb (py_eq eq_dec x v) then happend r x h else h).
      assert (H1a : objs h1 a = L).
      { unfold h1. destruct (negb _); [|exact HL]. unfold happend.
        rewrite objs_hwrite. destruct (Nat.eqb_spec a r); [contradiction|exact HL]. }
      destruct (IH (S i) h1 H1a ltac:(lia)) as [Hn [Hb Hr]].
      split; [rewrite Hn; unfold h1; destruct (negb _); reflexivity|].
      split.
      * intros b Hbr. rewrite Hb by exact Hbr. unfold h1. destruct (negb _); [|reflexivity].
        unfold happend. rewrite objs_hwrite.
        destruct (Nat.eqb_spec b r); [contradiction|reflexivity].
      * rewrite Hr, (skipn_nth_cons L i x Ex). unfold h1, filter_ne. simpl.
        destruct (negb (py_eq eq_dec x v)).
        -- unfold happend. rewrite objs_hwrite, Nat.eqb_refl, <- app_assoc. reflexivity.
        -- reflexivity.
    + apply nth_error_None in Ex.
      split; [reflexivity|]. split; [reflexivity|].
      rewrite skipn_all2 by exact Ex. simpl. rewrite app_nil_r. reflexivity.
Qed.

Lemma comprehension_ne_spec (v : A) (a : nat) (h : heap A) :
  (a < next h)%nat ->
  fst (comprehension_ne eq_dec v a h) = next h
  /\ next (snd (comprehension_ne eq_dec v a h)) = S (next h)
  /\ (forall b, (b < next h)%nat -> objs (snd (comprehension_ne eq_dec v a h)) b = objs h b)
  /\ objs (snd (comprehension_ne eq_dec v a h)) (next h) = filter_ne eq_dec v (objs h a).
Proof.
  intro Ha. unfold comprehension_ne, halloc. cbn [fst snd].
  set (h1 := mkHeap (fun b => if Nat.eqb b (next h) then [] else objs h b) (S (next h))).
  assert (H1a : objs h1 a = objs h a).
  { unfold h1. cbn [objs]. destruct (Nat.eqb_spec a (next h)); [lia|reflexivity]. }
  destruct (comp_loop_spec v a (next h) (objs h a) ltac:(lia)
              (List.length (objs h a)) 0 h1 H1a ltac:(lia)) as [Hn [Hb Hr]].
  split; [reflexivity|]. split; [exact Hn|]. split.
  - intros b Hb'. rewrite Hb by lia. unfold h1. cbn [objs].
    destruct (Nat.eqb_spec b (next h)); [lia|reflexivity].
  - rewrite Hr. unfold h1. cbn [objs]. rewrite Nat.eqb_refl. reflexivity.
Qed.

End PyListFacts.

(** C5: [del L[1]] on [[10,20,30,40]] gives [[10,30,40]];
    [L.remove(2)] on [[1,2,2,3]] gives [[1,2,3]]; [L.pop()] on
    [["a","b","c"]] returns ["c"] and leaves [["a","b"]]. *)
Theorem destructive_edits_boundaries :
  PyList.snippet_del = inl [10; 30; 40]%Z
  /\ PyList.snippet_remove = inl [1; 2; 3]%Z
  /\ PyList.snippet_pop = inl ("c"%string, ["a"; "b"]%string).
Proof. repeat split; reflexivity. Qed.

(** C6: excluding [v] and then selecting [v] gives the empty list, and the
    exclusion filter is idempotent. *)
Theorem filter_exclusion_idempotent {A : Type}
  (eq_dec : forall x y : A, {x = y} + {x <> y}) (v : A) (L : list A) :
  PyList.filter_eq eq_dec v (PyList.filter_ne eq_dec v L) = []
  /\ PyList.filter_ne eq_dec v (PyList.filter_ne eq_dec v L)
     = PyList.filter_ne eq_dec v L.
Proof.
  unfold PyList.filter_eq, PyList.filter_ne, PyList.py_eq.
  induction L as [|x L [IH1 IH2]]; simpl; [split; reflexivity|].
  destruct (eq_dec x v) as [->|Hne]; simpl.
  - split; assumption.
  - destruct (eq_dec x v) as [|_]; [contradiction|]. simpl.
    split; [assumption|]. rewrite IH2. reflexivity.
Qed.

(** C2 (counterexample): snippet 6 binds [L] to a new list object
    [[10,20,30,40]]; after [del L[1]] the same object holds [[10,30,40]]. *)
Lemma dataset_mutated_by_del :
  exists h', PyList.exec_op Z.eq_dec (PyList.OpDel 1%Z) 0
               (PyList.snippet_heap [10; 20; 30; 40]%Z) = inl (PyList.VNone, h')
  /\ PyList.objs h' 0%nat = [10; 30; 40]%Z
  /\ PyList.objs h' 0%nat <> PyList.objs (PyList.snippet_heap [10; 20; 30; 40]%Z) 0%nat.
Proof.
  eexists. split; [reflexivity|]. split; [reflexivity|]. simpl. discriminate.
Qed.

(** C2 (amended): on the list object bound to [L] (an allocated address
    [a]), an operation that only reads it ([print], the filtering
    comprehension) leaves every existing list object, [L]'s included, with
    its elements and order; the comprehension builds its result in a new
    object.  Each destructive edit ([del L[i]], [L.remove(v)], [L.pop()])
    that succeeds mutates the same object in place, allocating nothing and
    touching no other object: exactly one element is removed and the others
    stay in order. *)
Theorem list_ops_mutation {A : Type}
  (eq_dec : forall x y : A, {x = y} + {x <> y})
  (op : PyList.list_op) (a : nat) (h h' : PyList.heap A) (v : PyList.op_value)
  (Ha : (a < PyList.next h)%nat)
  (Hrun : PyList.exec_op eq_dec op a h = inl (v, h')) :
  (PyList.destructive op = false ->
     forall b, (b < PyList.next h)%nat -> PyList.objs h' b = PyList.objs h b)
  /\ (forall w, op = PyList.OpFilterNe w ->
        v = PyList.VObj (PyList.next h)
        /\ PyList.objs h' (PyList.next h) = PyList.filter_ne eq_dec w (PyList.objs h a))
  /\ (PyList.destructive op = true ->
        PyList.next h' = PyList.next h
        /\ (forall b, b <> a -> PyList.objs h' b = PyList.objs h b)
        /\ exists pre x post, PyList.objs h a = pre ++ x :: post
                              /\ PyList.objs h' a = pre ++ post).
Proof.
  assert (Hw : forall L', PyList.next (PyList.hwrite a L' h) = PyList.next h
                /\ (forall b, b <> a -> PyList.objs (PyList.hwrite a L' h) b = PyList.objs h b)
                /\ PyList.objs (PyList.hwrite a L' h) a = L').
  { intro L'. split; [reflexivity|]. split.
    - intros b Hb. rewrite objs_hwrite. destruct (Nat.eqb_spec b a); [contradiction|reflexivity].
    - rewrite objs_hwrite, Nat.eqb_refl. reflexivity. }
  destruct op as [i|w| |w|]; cbn [PyList.exec_op PyList.destructive] in Hrun |- *.
  - destruct (PyList.py_del i (PyList.objs h a)) as [L''|e] eqn:E; [|discriminate].
    injection Hrun as _ <-. split; [discriminate|]. split; [discriminate|].
    intros _. destruct (Hw L'') as [H1 [H2 H3]]. split; [exact H1|]. split; [exact H2|].
    rewrite H3. exact (py_del_split i _ _ E).
  - destruct (PyList.py_remove eq_dec w (PyList.objs h a)) as [L''|e] eqn:E; [|discriminate].
    injection Hrun as _ <-. split; [discriminate|]. split; [discriminate|].
    intros _. destruct (Hw L'') as [H1 [H2 H3]]. split; [exact H1|]. split; [exact H2|].
    rewrite H3. destruct (py_remove_split eq_dec w _ _ E) as [pre [post [E1 E2]]].
    exists pre, w, post. split; assumption.
  - destruct (PyList.py_pop (PyList.objs h a)) as [[x L'']|e] eqn:E; [|discriminate].
    injection Hrun as _ <-. split; [discriminate|]. split; [discriminate|].
    intros _. destruct (Hw L'') as [H1 [H2 H3]]. split; [exact H1|]. split; [exact H2|].
    rewrite H3. exists L'', x, []. rewrite app_nil_r. split; [|reflexivity].
    exact (py_pop_split _ _ _ E).
  - destruct (comprehension_ne_spec eq_dec w a h Ha) as [Hr [_ [Hb Hres]]].
    destruct (PyList.comprehension_ne eq_dec w a h) as [r h''] eqn:E.
    cbn [fst snd] in Hr, Hb, Hres. injection Hrun as <- <-.
    split; [intros _; exact Hb|]. split; [|discriminate].
    intros w' Hw'. injection Hw' as <-. subst r. split; [reflexivity|exact Hres].
  - injection Hrun as _ <-. split; [intros _ b _; reflexivity|].
    split; [discriminate|discriminate].
Qed.

Lemma list_ops_mutation_witness :
  PyList.objs (snd (PyList.comprehension_ne Z.eq_dec 2%Z 0
                      (PyList.snippet_heap [1; 2; 2; 3; 2; 4]%Z))) 1%nat = [1; 3; 4]%Z
  /\ PyList.objs (snd (PyList.comprehension_ne Z.eq_dec 2%Z 0
                      (PyList.snippet_heap [1; 2; 2; 3; 2; 4]%Z))) 0%nat
     = [1; 2; 2; 3; 2; 4]%Z.
Proof.
  destruct (list_ops_mutation Z.eq_dec (PyList.OpFilterNe 2%Z) 0
              (PyList.snippet_heap [1; 2; 2; 3; 2; 4]%Z)
              (snd (PyList.comprehension_ne Z.eq_dec 2%Z 0
                      (PyList.snippet_heap [1; 2; 2; 3; 2; 4]%Z)))
              (PyList.VObj 1) ltac:(simpl; lia) eq_refl) as [H1 [H2 _]].
  split.
  - destruct (H2 2%Z eq_refl) as [_ E]. exact E.
  - apply H1; [reflexivity|simpl; lia].
Defined.

(* ------------------------------------------------------------------ *)
(** ** Text files *)

Lemma translate_in_out (linesep s : string) :
  (linesep = TextFile.linesep_posix \/ linesep = TextFile.linesep_windows) ->
  CsvWrite.has_char TextFile.cr s = false ->
  TextFile.translate_in (TextFile.translate_out linesep s) = s.
Proof.
  intros Hsep. induction s as [|c s IH]; simpl; intro Hcr; [reflexivity|].
  apply orb_false_iff in Hcr as [Hc Hs].
  destruct (Ascii.eqb c TextFile.nl) eqn:Enl.
  - apply Ascii.eqb_eq in Enl. subst c.
    destruct Hsep as [-> | ->]; simpl; rewrite (IH Hs); reflexivity.
  - simpl. unfold TextFile.cr in Hc |- *. rewrite Hc, (IH Hs). reflexivity.
Qed.

(** C8 (counterexample): on POSIX, the two-line text ["Hello\r\nWorld\r\n"]
    reads back as ["Hello\nWorld\n"]: the read translates its line ends. *)
Lemma text_crlf_not_verbatim :
  let s := append "Hello" (String TextFile.cr (String TextFile.nl
             (append "World" (String TextFile.cr (String TextFile.nl EmptyString))))) in
  TextFile.read_text "example.txt"
    (TextFile.write_text TextFile.linesep_posix "example.txt" s (fun _ => None))
  = Some (append "Hello" (String TextFile.nl
            (append "World" (String TextFile.nl EmptyString))))
  /\ TextFile.read_text "example.txt"
       (TextFile.write_text TextFile.linesep_posix "example.txt" s (fun _ => None))
     <> Some s.
Proof. split; [reflexivity|]. vm_compute. discriminate. Qed.

Lemma translate_out_posix (s : string) :
  TextFile.translate_out TextFile.linesep_posix s = s.
Proof.
  induction s as [|c s IH]; simpl; [reflexivity|].
  destruct (Ascii.eqb c TextFile.nl) eqn:E; rewrite IH; [|reflexivity].
  apply Ascii.eqb_eq in E. subst c. reflexivity.
Qed.

Lemma translate_in_cr (t : string) :
  (forall t', t <> String TextFile.nl t') ->
  TextFile.translate_in (String TextFile.cr t) = String TextFile.nl (TextFile.translate_in t).
Proof.
  intro Ht. cbn [TextFile.translate_in]. rewrite Ascii.eqb_refl.
  destruct t as [|c t']; [reflexivity|].
  destruct (Ascii.eqb c TextFile.nl) eqn:E; [|reflexivity].
  apply Ascii.eqb_eq in E. subst c. exfalso. exact (Ht t' eq_refl).
Qed.

Lemma translate_out_windows_head (s t : string) :
  TextFile.translate_out TextFile.linesep_windows s <> String TextFile.nl t.
Proof.
  destruct s as [|c s]; simpl; [discriminate|].
  destruct (Ascii.eqb c TextFile.nl) eqn:E; simpl; [discriminate|].
  intro H. injection H as -> _. rewrite Ascii.eqb_refl in E. discriminate.
Qed.

Lemma translate_in_out_windows (s : string) :
  list_ascii_of_string
    (TextFile.translate_in (TextFile.translate_out TextFile.linesep_windows s))
  = map (fun c => if Ascii.eqb c TextFile.cr then TextFile.nl else c)
        (list_ascii_of_string s).
Proof.
  induction s as [|c s IH]; [reflexivity|].
  cbn [TextFile.translate_out list_ascii_of_string map].
  destruct (Ascii.eqb c TextFile.nl) eqn:Enl.
  - apply Ascii.eqb_eq in Enl. subst c. cbn. rewrite IH. reflexivity.
  - destruct (Ascii.eqb c TextFile.cr) eqn:Ecr.
    + apply Ascii.eqb_eq in Ecr. subst c.
      rewrite translate_in_cr by apply translate_out_windows_head.
      cbn [list_ascii_of_string]. rewrite IH. reflexivity.
    + cbn [TextFile.translate_in]. rewrite Ecr. cbn [list_ascii_of_string].
      rewrite IH. reflexivity.
Qed.

(** C8 (amended): with [os.linesep] either ["\n"] or ["\r\n"], every text
    without a carriage return that is written to a file in text mode reads
    back exactly; in particular the text of snippet 2.  A text with carriage
    returns does not: with [os.linesep = "\n"] it reads back with the
    universal-newline translation ([translate_in]: each ["\r\n"] and each
    lone ["\r"] becomes ["\n"]); with [os.linesep = "\r\n"] it reads back
    with every ["\r"] replaced by ["\n"], so that ["\r\n"] becomes
    ["\n\n"]. *)
Theorem text_file_roundtrip (linesep name s : string) (d : TextFile.fs)
  (Hsep : linesep = TextFile.linesep_posix \/ linesep = TextFile.linesep_windows) :
  (CsvWrite.has_char TextFile.cr s = false ->
     TextFile.read_text name (TextFile.write_text linesep name s d) = Some s)
  /\ (linesep = TextFile.linesep_posix ->
     TextFile.read_text name (TextFile.write_text linesep name s d)
     = Some (TextFile.translate_in s))
  /\ (linesep = TextFile.linesep_windows ->
     exists t, TextFile.read_text name (TextFile.write_text linesep name s d) = Some t
     /\ list_ascii_of_string t
        = map (fun c => if Ascii.eqb c TextFile.cr then TextFile.nl else c)
              (list_ascii_of_string s)).
Proof.
  unfold TextFile.read_text, TextFile.write_text.
  destruct (string_dec name name) as [_|Hn]; [|contradiction].
  split; [|split].
  - intro Hcr. rewrite (translate_in_out linesep s Hsep Hcr). reflexivity.
  - intros ->. rewrite translate_out_posix. reflexivity.
  - intros ->. eexists. split; [reflexivity|]. apply translate_in_out_windows.
Qed.

Lemma text_file_roundtrip_witness :
  TextFile.snippet_open TextFile.linesep_posix (fun _ => None)
  = Some TextFile.example_text.
Proof.
  apply (proj1 (text_file_roundtrip TextFile.linesep_posix "example.txt"
           TextFile.example_text (fun _ => None) (or_introl eq_refl))).
  reflexivity.
Defined.

(* ------------------------------------------------------------------ *)
(** ** Linear regression *)

Section LinRegressFacts.
Import LinRegress.
Local Open Scope R_scope.

Lemma sumR_map_affine (a b : R) (xs : list R) :
  sumR (map (fun x => a * x + b) xs) = a * sumR xs + b * INR (List.length xs).
Proof.
  induction xs as [|x xs IH]; simpl; [ring|].
  rewrite IH. destruct (List.length xs); simpl; ring.
Qed.

Lemma sumR_map_scale (c : R) (g : R -> R) (xs : list R) :
  sumR (map (fun x => c * g x) xs) = c * sumR (map g xs).
Proof. induction xs as [|x xs IH]; simpl; [ring|]. rewrite IH. ring. Qed.

Lemma combine_map_r {X Y : Type} (xs : list X) (f : X -> Y) :
  combine xs (map f xs) = map (fun x => (x, f x)) xs.
Proof. induction xs as [|x xs IH]; simpl; [reflexivity|]. rewrite IH. reflexivity. Qed.

Lemma combine_diag {X : Type} (xs : list X) :
  combine xs xs = map (fun x => (x, x)) xs.
Proof. induction xs as [|x xs IH]; simpl; [reflexivity|]. rewrite IH. reflexivity. Qed.

Lemma sumR_nonneg (g : R -> R) (xs : list R) :
  (forall y, 0 <= g y) -> 0 <= sumR (map g xs).
Proof.
  intro Hg. induction xs as [|x xs IH]; simpl; [lra|]. specialize (Hg x). lra.
Qed.

Lemma sumR_term_le (g : R -> R) (xs : list R) (x : R) :
  (forall y, 0 <= g y) -> In x xs -> g x <= sumR (map g xs).
Proof.
  intros Hg Hin. induction xs as [|y xs IH]; simpl in *; [contradiction|].
  destruct Hin as [->|Hin].
  - pose proof (sumR_nonneg g xs Hg). lra.
  - pose proof (Hg y). specialize (IH Hin). lra.
Qed.

(** C7: [linregress] over points on [y = 2x + 1] whose x values are not
    all equal returns slope 2, intercept 1 and r-value 1 (exactly, over the
    reals). *)
Theorem linregress_exact_line (xs : list R) (a b : R)
  (Ha : In a xs) (Hb : In b xs) (Hab : a <> b) :
  LinRegress.linregress xs (map LinRegress.line xs) = LinRegress.LinOk 2 1 1.
Proof.
  assert (Hn2 : (2 <= List.length xs)%nat).
  { destruct xs as [|x0 [|x1 xs']]; simpl in *; [contradiction| |lia].
    destruct Ha as [Ha|[]]; destruct Hb as [Hb|[]]; congruence. }
  assert (Hid : all_identical xs = false).
  { destruct xs as [|x0 xs'']; [simpl in Ha; contradiction|].
    unfold all_identical. apply not_true_iff_false. intro H.
    rewrite forallb_forall in H.
    pose proof (H a Ha) as H1. pose proof (H b Hb) as H2.
    destruct (Req_EM_T a x0), (Req_EM_T b x0); try discriminate. congruence. }
  set (N := INR (List.length xs)).
  assert (HN : 0 < N) by (apply lt_0_INR; lia).
  set (m := meanR xs).
  set (SS := sumR (map (fun x => (x - m) * (x - m)) xs)).
  assert (HmY : meanR (map line xs) = 2 * m + 1).
  { unfold m, meanR, line. rewrite length_map, sumR_map_affine. fold N. field. lra. }
  assert (Hxx : cov_bias xs xs = SS / N).
  { unfold cov_bias. fold m. rewrite combine_diag, map_map. reflexivity. }
  assert (Hxy : cov_bias xs (map line xs) = 2 * SS / N).
  { unfold cov_bias. fold m. rewrite HmY, combine_map_r, map_map. simpl.
    rewrite (map_ext _ (fun x => 2 * ((x - m) * (x - m)))).
    - rewrite sumR_map_scale. fold SS. fold N. reflexivity.
    - intro x. unfold line. ring. }
  assert (Hyy : cov_bias (map line xs) (map line xs) = 4 * SS / N).
  { unfold cov_bias. rewrite HmY, combine_diag, !map_map, length_map. simpl.
    rewrite (map_ext _ (fun x => 4 * ((x - m) * (x - m)))).
    - rewrite sumR_map_scale. fold SS. fold N. reflexivity.
    - intro x. unfold line. ring. }
  assert (HS : 0 < SS).
  { assert (Hsq : forall y, 0 <= (y - m) * (y - m)) by (intro y; apply Rle_0_sqr).
    pose proof (sumR_term_le _ xs a Hsq Ha) as H1.
    pose proof (sumR_term_le _ xs b Hsq Hb) as H2.
    fold SS in H1, H2.
    destruct (Rle_lt_dec SS 0) as [Hle|]; [|assumption].
    exfalso. assert (a = m) by nra. assert (b = m) by nra. congruence. }
  unfold linregress.
  rewrite length_map, Hid, Nat.eqb_refl.
  replace (List.length xs =? 0)%nat with false by (symmetry; apply Nat.eqb_neq; lia).
  replace (List.length xs =? 1)%nat with false by (symmetry; apply Nat.eqb_neq; lia).
  cbv zeta. simpl (_ || _). simpl negb. simpl (false && _).
  rewrite Hxx, Hxy, Hyy, HmY. fold m.
  assert (HSN : 0 < SS / N) by (apply Rdiv_lt_0_compat; assumption).
  destruct (Req_EM_T (SS / N) 0) as [E|_]; [lra|].
  destruct (Req_EM_T (4 * SS / N) 0) as [E|_].
  { exfalso. assert (0 < 4 * SS / N) by (apply Rdiv_lt_0_compat; lra). lra. }
  replace (SS / N * (4 * SS / N)) with ((2 * SS / N) * (2 * SS / N)) by (field; lra).
  rewrite sqrt_square by (apply Rlt_le, Rdiv_lt_0_compat; lra).
  replace (2 * SS / N / (2 * SS / N)) with 1 by (field; lra).
  destruct (Rlt_dec 1 1) as [E|_]; [lra|].
  destruct (Rlt_dec 1 (-1)) as [E|_]; [lra|].
  f_equal; field; lra.
Qed.

Lemma linregress_exact_line_witness :
  LinRegress.linregress [0; 1; 2; 3]%R (map LinRegress.line [0; 1; 2; 3]%R)
  = LinRegress.LinOk 2 1 1.
Proof.
  apply (linregress_exact_line [0; 1; 2; 3]%R 0%R 1%R).
  - simpl. left. reflexivity.
  - simpl. right. left. reflexivity.
  - apply R1_neq_R0 ||
    (intro H; apply R1_neq_R0; symmetry; exact H).
Defined.

End LinRegressFacts.

(* ------------------------------------------------------------------ *)
(** ** The pandas frame *)

Section PandasFacts.
Import Csv Frame Pandas.

Lemma dropna_rows (h : how) (f : frame)
  (Hlen : List.length (f_index f) = List.length (f_rows f)) :
  f_rows (dropna h f) = filter (keep_row h) (f_rows f).
Proof.
  unfold dropna. simpl. destruct f as [idx nm kd rows]. simpl in *.
  revert rows Hlen. induction idx as [|i idx IH]; intros [|r rows] Hlen;
    simpl in *; try discriminate; [reflexivity|].
  destruct (keep_row h r); simpl; rewrite IH by lia; reflexivity.
Qed.

Lemma keep_any_iff (r : list cell) :
  keep_row HowAny r = true <-> Forall (fun c => c <> CNA) r.
Proof.
  simpl. rewrite forallb_forall, Forall_forall.
  split; intros H c Hc; specialize (H c Hc); destruct c; simpl in *; congruence.
Qed.

Lemma keep_all_iff (r : list cell) :
  keep_row HowAll r = true <-> Exists (fun c => c <> CNA) r.
Proof.
  simpl. rewrite existsb_exists, Exists_exists.
  split; intros [c [Hc H]]; exists c; split; auto; destruct c; simpl in *; congruence.
Qed.

(** C9: [dropna(how="any")] keeps, in order, exactly the records with no
    missing field and [dropna(how="all")] exactly the records with some
    field present; on [df] the first drops the record with the blank price
    (id 3) and keeps 3 of the 4 records, the second keeps all 4. *)
Theorem dropna_any_vs_all (f : frame)
  (Hlen : List.length (f_index f) = List.length (f_rows f)) :
  f_rows (dropna HowAny f) = filter (keep_row HowAny) (f_rows f)
  /\ f_rows (dropna HowAll f) = filter (keep_row HowAll) (f_rows f)
  /\ (forall r, keep_row HowAny r = true <-> Forall (fun c => c <> CNA) r)
  /\ (forall r, keep_row HowAll r = true <-> Exists (fun c => c <> CNA) r)
  /\ List.length (f_rows df_frame) = 4%nat
  /\ option_map (fun g => f_index g) clean_any = Some [CNum 1; CNum 2; CNum 4]
  /\ option_map (fun g => List.length (f_rows g)) clean_any = Some 3%nat
  /\ option_map (fun g => List.length (f_rows g)) clean_all = Some 4%nat.
Proof.
  split; [apply dropna_rows; exact Hlen|].
  split; [apply dropna_rows; exact Hlen|].
  split; [exact keep_any_iff|].
  split; [exact keep_all_iff|].
  vm_compute. repeat split.
Qed.

Lemma dropna_any_vs_all_witness :
  List.length (f_index df_frame) = List.length (f_rows df_frame)
  /\ f_rows (dropna HowAny df_frame) = filter (keep_row HowAny) (f_rows df_frame).
Proof.
  assert (H : List.length (f_index df_frame) = List.length (f_rows df_frame))
    by (vm_compute; reflexivity).
  split; [exact H|].
  exact (proj1 (dropna_any_vs_all df_frame H)).
Defined.

Lemma df_is_frame : df = Some df_frame.
Proof. vm_compute. reflexivity. Qed.

(** C10: in [f[name] > t], a record whose field is missing is never
    selected; on [df], [df.loc[df["price"] > 100, ["name", "price"]]]
    returns exactly Alpha (120, id 1) and Delta (200, id 4). *)
Theorem gt_filter_excludes_missing (f : frame) (name : string) (t : Z)
  (j : nat) (mask : list bool)
  (Hj : index_of name (f_names f) = Some j)
  (Hm : gt_mask f name t = Some mask) :
  Forall2 (fun c b => c = CNA -> b = false) (column j f) mask
  /\ expensive = Some [(CNum 1, [CText "Alpha"; CNum 120]);
                       (CNum 4, [CText "Delta"; CNum 200])]%string.
Proof.
  split; [|vm_compute; reflexivity].
  unfold gt_mask in Hm. rewrite Hj in Hm.
  destruct (nth j (f_kinds f) KText); try discriminate;
    injection Hm as <-; induction (column j f) as [|c cs IH]; simpl;
    constructor; auto; intros ->; reflexivity.
Qed.

Lemma gt_filter_excludes_missing_witness :
  Forall2 (fun c b => c = CNA -> b = false) (column 3 df_frame)
    [true; false; false; true].
Proof.
  apply (gt_filter_excludes_missing df_frame "price" 100 3 [true; false; false; true]);
    vm_compute; reflexivity.
Defined.

End PandasFacts.

Section GroupFacts.
Import Csv Frame Pandas.

(** C4: grouping [df] by [col] gives the means [{A: 15, B: 35}] of
    [value] (and [{A: 100, B: 200}] of [price], whose blank is skipped);
    for every frame and existing key column, the grouped mean succeeds and
    its columns are exactly the numeric columns other than the key: the
    date and text columns are left out. *)
Theorem groupby_mean_by_key (f : frame) (name : string) (g : nat)
  (Hg : index_of name (f_names f) = Some g) :
  gb = Some [(CText "A", [("value", Some 15%Q); ("price", Some 100%Q)]);
             (CText "B", [("value", Some 35%Q); ("price", Some 200%Q)])]%string
  /\ exists res, groupby_mean f name = Some res
       /\ map fst res = group_keys (column g f)
       /\ Forall (fun p => map fst (snd p)
                  = map (fun j => nth j (f_names f) EmptyString)
                        (filter (fun j => negb (Nat.eqb j g)
                                  && is_numeric_col (nth j (f_kinds f) KText) (column j f))
                                (seq 0 (List.length (f_names f))))) res.
Proof.
  split; [vm_compute; reflexivity|].
  unfold groupby_mean. rewrite Hg.
  eexists; split; [reflexivity|]. split.
  - rewrite map_map. simpl. apply map_id.
  - apply Forall_forall. intros p Hp. apply in_map_iff in Hp as [k [<- _]].
    simpl. rewrite map_map. reflexivity.
Qed.

Lemma groupby_mean_by_key_witness :
  index_of "col" (f_names df_frame) = Some 1%nat
  /\ gb = Some [(CText "A", [("value", Some 15%Q); ("price", Some 100%Q)]);
                (CText "B", [("value", Some 35%Q); ("price", Some 200%Q)])]%string.
Proof.
  assert (H : index_of "col" (f_names df_frame) = Some 1%nat) by (vm_compute; reflexivity).
  split; [exact H|].
  exact (proj1 (groupby_mean_by_key df_frame "col" 1 H)).
Defined.

End GroupFacts.

Section MissingFacts.
Import Csv Frame Pandas.

Lemma split_at {X : Type} (l : list X) (i : nat) (d : X) :
  (i < List.length l)%nat -> l = firstn i l ++ nth i l d :: skipn (S i) l.
Proof.
  revert i. induction l as [|x l IH]; intros [|i] H; simpl in *; try lia.
  - reflexivity.
  - f_equal. apply IH. lia.
Qed.

Lemma values_app (l1 l2 : list cell) : values (l1 ++ l2) = values l1 ++ values l2.
Proof.
  induction l1 as [|c l1 IH]; simpl; [reflexivity|].
  destruct (cell_int c); rewrite IH; reflexivity.
Qed.

Lemma sumZ_app (l1 l2 : list Z) : sumZ (l1 ++ l2) = (sumZ l1 + sumZ l2)%Z.
Proof. induction l1 as [|x l1 IH]; simpl; [reflexivity|]. unfold sumZ in *. simpl. lia. Qed.

Lemma filter_true {X : Type} (l : list X) : filter (fun _ => true) l = l.
Proof. induction l as [|x l IH]; simpl; [reflexivity|]. rewrite IH. reflexivity. Qed.

(** Dropping a record whose field [j] is missing leaves the values of
    field [j] over any selection of records unchanged. *)
Lemma values_filter_drop (P : list cell -> bool) (j i : nat) (rows : list (list cell)) :
  (i < List.length rows)%nat -> nth j (nth i rows []) CNA = CNA ->
  values (map (fun r => nth j r CNA) (filter P (remove_nth i rows)))
  = values (map (fun r => nth j r CNA) (filter P rows)).
Proof.
  intros Hi Hna. unfold remove_nth.
  pose proof (split_at rows i [] Hi) as E.
  set (l1 := firstn i rows) in *. set (l2 := skipn (S i) rows) in *.
  set (r := nth i rows []) in *. clearbody l1 l2 r.
  rewrite E. rewrite !filter_app, !map_app, !values_app. simpl.
  destruct (P r); simpl; [rewrite Hna|]; reflexivity.
Qed.

Lemma combine_map2 {X Y W : Type} (a : X -> Y) (b : X -> W) (l : list X) :
  combine (map a l) (map b l) = map (fun x => (a x, b x)) l.
Proof. induction l as [|x l IH]; simpl; [reflexivity|]. rewrite IH. reflexivity. Qed.

Lemma pairs_drop (a b : list cell -> cell) (i : nat) (rows : list (list cell)) :
  (i < List.length rows)%nat ->
  (cell_int (a (nth i rows [])) = None \/ cell_int (b (nth i rows [])) = None) ->
  complete_pairs (map a (remove_nth i rows)) (map b (remove_nth i rows))
  = complete_pairs (map a rows) (map b rows).
Proof.
  intros Hi Hnone. unfold complete_pairs. rewrite !combine_map2.
  unfold remove_nth.
  pose proof (split_at rows i [] Hi) as E.
  set (l1 := firstn i rows) in *. set (l2 := skipn (S i) rows) in *.
  set (r := nth i rows []) in *. clearbody l1 l2 r.
  rewrite E. rewrite !map_app, !fold_right_app. simpl.
  destruct Hnone as [H|H]; rewrite H; [reflexivity|].
  destruct (cell_int (a r)); reflexivity.
Qed.

Lemma nth_update_same {X : Type} (j : nat) (g : X -> X) (r : list X) (d : X) :
  (j < List.length r)%nat -> nth j (update_nth j g r) d = g (nth j r d).
Proof.
  revert j. induction r as [|x r IH]; intros [|j] H; simpl in *; try lia.
  - reflexivity.
  - apply IH. lia.
Qed.

Lemma column_set_cell (i j : nat) (v : cell) (rows : list (list cell)) :
  (i < List.length rows)%nat -> (j < List.length (nth i rows []))%nat ->
  map (fun r => nth j r CNA) (update_nth i (update_nth j (fun _ => v)) rows)
  = firstn i (map (fun r => nth j r CNA) rows) ++ v
      :: skipn (S i) (map (fun r => nth j r CNA) rows).
Proof.
  revert i. induction rows as [|r rows IH]; intros [|i] Hi Hj; simpl in *; try lia.
  - rewrite nth_update_same by exact Hj. reflexivity.
  - rewrite IH by lia. reflexivity.
Qed.

Lemma Qdiv_inject_eq (a b c d : Z) :
  (0 < b)%Z -> (0 < d)%Z ->
  (inject_Z a / inject_Z b == inject_Z c / inject_Z d <-> (a * d = c * b)%Z).
Proof.
  intros Hb Hd.
  destruct b as [|pb|pb]; try lia. destruct d as [|pd|pd]; try lia.
  unfold Qeq, Qdiv, Qmult, Qinv, inject_Z. simpl.
  rewrite !Z.mul_1_r. reflexivity.
Qed.

Lemma Qred_some_iff (x y : Q) : Some (Qred x) = Some (Qred y) <-> x == y.
Proof.
  split.
  - intro H. injection H as H.
    rewrite <- (Qred_correct x), <- (Qred_correct y), H. reflexivity.
  - intro H. rewrite (Qred_complete x y H). reflexivity.
Qed.

Lemma nth_map_lt {X Y : Type} (h : X -> Y) (l : list X) (i : nat) (d : Y) (d' : X) :
  (i < List.length l)%nat -> nth i (map h l) d = h (nth i l d').
Proof.
  revert i. induction l as [|x l IH]; intros [|i] H; simpl in *; try lia.
  - reflexivity.
  - apply IH. lia.
Qed.

(** C3 (counterexample): for the column [1, -1, blank], the mean with the
    blank skipped is 0, and it is also 0 with the blank replaced by 0. *)
Lemma mean_zero_substitution_coincides :
  let f := mkFrame [CNum 0; CNum 1; CNum 2] ["x"%string] [KNum]
                   [[CNum 1]; [CNum (-1)]; [CNA]] in
  mean_skipna (column 0 f) = Some 0%Q
  /\ mean_skipna (column 0 (drop_row 2 f)) = Some 0%Q
  /\ mean_skipna (column 0 (set_cell 2 0 (CNum 0) f)) = Some 0%Q.
Proof. vm_compute. repeat split. Qed.

(** C3 (amended): when field [j] of record [i] is missing, the mean of
    column [j], its mean within every group (as a function of the key) and
    its correlation with every column are the same as after dropping that
    record; the mean with that field replaced by 0 equals the mean that
    skips it exactly when the column has present values and they sum to 0. *)
Theorem missing_value_excluded (f : frame) (i j : nat)
  (Hi : (i < List.length (f_rows f))%nat)
  (Hj : (j < List.length (nth i (f_rows f) []))%nat)
  (Hna : nth j (nth i (f_rows f) []) CNA = CNA) :
  mean_skipna (column j f) = mean_skipna (column j (drop_row i f))
  /\ (forall g k, group_mean f g j k = group_mean (drop_row i f) g j k)
  /\ (forall k, corr_pair (column j f) (column k f)
                = corr_pair (column j (drop_row i f)) (column k (drop_row i f))
              /\ corr_pair (column k f) (column j f)
                = corr_pair (column k (drop_row i f)) (column j (drop_row i f)))
  /\ (mean_skipna (column j (set_cell i j (CNum 0) f)) = mean_skipna (column j f)
      <-> values (column j f) <> [] /\ sumZ (values (column j f)) = 0%Z).
Proof.
  destruct f as [idx nm kd rows]. simpl in *.
  split.
  { unfold mean_skipna, column. simpl.
    pose proof (values_filter_drop (fun _ => true) j i rows Hi Hna) as H.
    rewrite !filter_true in H. rewrite H. reflexivity. }
  split.
  { intros g k. unfold group_mean, mean_skipna. simpl.
    rewrite values_filter_drop by assumption. reflexivity. }
  split.
  { intro k. unfold corr_pair, column. simpl.
    rewrite !pairs_drop by first [exact Hi | cbv beta; rewrite Hna; simpl; auto].
    split; reflexivity. }
  unfold column, set_cell. simpl.
  rewrite column_set_cell by assumption.
  set (cs := map (fun r => nth j r CNA) rows).
  assert (Hn : nth i cs CNA = CNA).
  { unfold cs. rewrite (nth_map_lt _ rows i CNA []) by exact Hi. exact Hna. }
  assert (Ecs : cs = firstn i cs ++ CNA :: skipn (S i) cs).
  { rewrite <- Hn. apply split_at. unfold cs. rewrite length_map. exact Hi. }
  assert (Hv : values cs = values (firstn i cs) ++ values (skipn (S i) cs)).
  { rewrite Ecs at 1. rewrite values_app. reflexivity. }
  unfold mean_skipna. rewrite values_app, Hv.
  change (values (CNum 0 :: skipn (S i) cs)) with (0%Z :: values (skipn (S i) cs)).
  set (V1 := values (firstn i cs)). set (V2 := values (skipn (S i) cs)).
  clearbody V1 V2.
  assert (Hsum : sumZ (V1 ++ 0%Z :: V2) = sumZ (V1 ++ V2)).
  { rewrite !sumZ_app. change (sumZ (0%Z :: V2)) with (0 + sumZ V2)%Z. lia. }
  assert (Hlen : List.length (V1 ++ 0%Z :: V2) = S (List.length (V1 ++ V2))).
  { rewrite !length_app. simpl. lia. }
  destruct (V1 ++ 0%Z :: V2) as [|z0 zs] eqn:EZ.
  { exfalso. symmetry in EZ. exact (app_cons_not_nil V1 V2 0%Z EZ). }
  destruct (V1 ++ V2) as [|w ws] eqn:EW.
  { split; [discriminate|intros [H _]; contradiction]. }
  rewrite Qred_some_iff, Qdiv_inject_eq by (simpl; lia).
  rewrite Hsum, Hlen, Nat2Z.inj_succ.
  set (s := sumZ (w :: ws)). set (n := Z.of_nat (List.length (w :: ws))).
  split.
  - intro H. split; [discriminate|nia].
  - intros [_ Hs]. rewrite Hs. ring.
Qed.

Lemma missing_value_excluded_witness :
  mean_skipna (column 3 df_frame) = mean_skipna (column 3 (drop_row 2 df_frame)).
Proof.
  destruct (missing_value_excluded df_frame 2 3
              ltac:(vm_compute; lia) ltac:(vm_compute; lia)
              ltac:(vm_compute; reflexivity)) as [H _].
  exact H.
Defined.

End MissingFacts.

(* ------------------------------------------------------------------ *)
(** ** Round trips through the delimited format and the archive *)

Section RoundTripFacts.
Import Csv Frame CsvWrite.
Local Open Scope Z_scope.

Lemma split_on_app (c : ascii) (a b : string) :
  has_char c a = false -> split_on c (append a (String c b)) = a :: split_on c b.
Proof.
  induction a as [|x a IH]; intro H; simpl in *.
  - rewrite Ascii.eqb_refl. reflexivity.
  - apply orb_false_iff in H as [Hx Ha]. rewrite Hx, (IH Ha). reflexivity.
Qed.

Lemma split_on_none (c : ascii) (a : string) :
  has_char c a = false -> split_on c a = [a].
Proof.
  induction a as [|x a IH]; intro H; simpl in *.
  - reflexivity.
  - apply orb_false_iff in H as [Hx Ha]. rewrite Hx, (IH Ha). reflexivity.
Qed.

Lemma split_join (c : ascii) (fs : list string) :
  fs <> [] -> Forall (fun f => has_char c f = false) fs ->
  split_on c (join_with c fs) = fs.
Proof.
  induction fs as [|f fs IH]; intros Hne Hf; [congruence|].
  inversion Hf as [|? ? Hf0 Hfs]; subst.
  destruct fs as [|g fs].
  - apply split_on_none. exact Hf0.
  - change (join_with c (f :: g :: fs)) with (append f (String c (join_with c (g :: fs)))).
    rewrite split_on_app by exact Hf0. rewrite IH by (discriminate || exact Hfs).
    reflexivity.
Qed.

Lemma split_lines (ls : list string) :
  Forall (fun l => has_char nl l = false) ls ->
  split_on nl (lines_text ls) = ls ++ [EmptyString].
Proof.
  induction ls as [|l ls IH]; intro H; [reflexivity|].
  inversion H; subst. simpl lines_text. rewrite split_on_app by assumption.
  rewrite IH by assumption. reflexivity.
Qed.

Lemma has_char_append (c : ascii) (a b : string) :
  has_char c (append a b) = has_char c a || has_char c b.
Proof.
  induction a as [|x a IH]; simpl; [reflexivity|]. rewrite IH, orb_assoc. reflexivity.
Qed.

Lemma has_char_join (c sep : ascii) (fs : list string) :
  Ascii.eqb sep c = false -> Forall (fun f => has_char c f = false) fs ->
  has_char c (join_with sep fs) = false.
Proof.
  intros Hs. induction fs as [|f fs IH]; intro H; [reflexivity|].
  inversion H; subst. destruct fs as [|g fs]; [assumption|].
  change (join_with sep (f :: g :: fs)) with (append f (String sep (join_with sep (g :: fs)))).
  rewrite has_char_append, H2.
  change (has_char c (String sep ?x)) with (Ascii.eqb sep c || has_char c x).
  rewrite Hs, IH by assumption. reflexivity.
Qed.

Lemma join_nonempty (c : ascii) (f : string) (fs : list string) :
  f <> EmptyString \/ fs <> [] -> join_with c (f :: fs) <> EmptyString.
Proof.
  intros [H|H]; destruct fs as [|g fs]; simpl; try assumption; try congruence;
  destruct f; discriminate.
Qed.

Lemma filter_all_true {X : Type} (p : X -> bool) (l : list X) :
  Forall (fun x => p x = true) l -> filter p l = l.
Proof.
  induction l as [|x l IH]; intro H; [reflexivity|].
  inversion H; subst. simpl. rewrite H2, IH by assumption. reflexivity.
Qed.

Lemma Forall2_nth_iff {A B : Type} (P : A -> B -> Prop) (l1 : list A) (l2 : list B)
  (d1 : A) (d2 : B) :
  Forall2 P l1 l2 <->
  List.length l1 = List.length l2
  /\ (forall i, (i < List.length l1)%nat -> P (nth i l1 d1) (nth i l2 d2)).
Proof.
  split.
  - induction 1 as [|x y l1 l2 Hxy H IH].
    + split; [reflexivity|]. intros i Hi. simpl in Hi. lia.
    + destruct IH as [Hl Hn]. split; [simpl; lia|].
      intros [|i] Hi; [exact Hxy|]. apply Hn. simpl in Hi. lia.
  - revert l2. induction l1 as [|x l1 IH]; intros [|y l2] [Hl Hn]; simpl in *;
      try discriminate; constructor.
    + apply (Hn 0%nat). lia.
    + apply IH. split; [lia|]. intros i Hi. apply (Hn (S i)). lia.
Qed.

(* characters of the printed numbers and dates *)

Lemma num_string_has_char (c : ascii) (s : string) :
  num_string s = true -> num_char c = false -> has_char c s = false.
Proof.
  intros Hs Hc. induction s as [|x s IH]; [reflexivity|].
  simpl in *. apply andb_prop in Hs as [Hx Hs].
  destruct (Ascii.eqb x c) eqn:E.
  - apply Ascii.eqb_eq in E. subst. congruence.
  - simpl. apply IH. exact Hs.
Qed.

Lemma num_char_text (c : ascii) : num_char c = true -> text_char c = true.
Proof.
  unfold num_char, text_char, digit_val. intro H.
  apply orb_true_iff in H as [H|H].
  - destruct (_ && _)%nat eqn:E; [|discriminate].
    apply andb_true_iff in E as [E1 E2]. apply Nat.leb_le in E1, E2.
    apply orb_true_iff. left. apply andb_true_iff.
    split; apply Nat.leb_le; lia.
  - apply Ascii.eqb_eq in H. subst c. reflexivity.
Qed.

Lemma num_string_special_free (s : string) :
  num_string s = true -> special_free s = true.
Proof.
  intro H. unfold special_free.
  rewrite !num_string_has_char by (exact H || reflexivity). simpl.
  induction s as [|c s IH]; [reflexivity|].
  simpl in H |- *. apply andb_prop in H as [Hc Hs].
  rewrite (num_char_text c Hc). exact (IH Hs).
Qed.

Lemma num_string_not_na (s : string) :
  s <> EmptyString -> num_string s = true -> is_na s = false.
Proof.
  intros Hne Hs. destruct (is_na s) eqn:E; [|reflexivity].
  unfold is_na in E. apply existsb_exists in E as [t [Hin Heq]].
  apply String.eqb_eq in Heq. subst t.
  simpl in Hin.
  repeat (destruct Hin as [<-|Hin]; [first [congruence | vm_compute in Hs; discriminate]|]).
  destruct Hin.
Qed.

Lemma nilempty_num (u : Decimal.uint) :
  num_string (DecimalString.NilEmpty.string_of_uint u) = true.
Proof. induction u; simpl; rewrite ?IHu; reflexivity. Qed.

Lemma nilzero_num (u : Decimal.uint) :
  num_string (DecimalString.NilZero.string_of_uint u) = true
  /\ DecimalString.NilZero.string_of_uint u <> EmptyString.
Proof.
  destruct u; simpl; split; try discriminate; try reflexivity; apply nilempty_num.
Qed.

Lemma print_int_num (z : Z) :
  num_string (print_int z) = true /\ print_int z <> EmptyString.
Proof.
  unfold print_int. destruct (Z.to_int z) as [u|u]; simpl.
  - apply nilzero_num.
  - split; [|discriminate]. apply nilzero_num.
Qed.

Lemma parse_int_print_int (z : Z) : parse_int (print_int z) = Some z.
Proof.
  assert (Hp : Z.to_int z <> Decimal.Pos Decimal.Nil).
  { intro E. pose proof (DecimalZ.of_to z) as H. rewrite E in H.
    simpl in H. subst z. discriminate E. }
  assert (Hn : Z.to_int z <> Decimal.Neg Decimal.Nil).
  { intro E. pose proof (DecimalZ.of_to z) as H. rewrite E in H.
    simpl in H. subst z. discriminate E. }
  destruct (print_int_num z) as [Hs Hne].
  unfold parse_int. destruct (print_int z) as [|c s'] eqn:E; [congruence|].
  simpl in Hs. apply andb_prop in Hs as [Hc _].
  destruct (Ascii.eqb c "+"%char) eqn:Ec.
  { apply Ascii.eqb_eq in Ec. subst c. discriminate Hc. }
  rewrite <- E. unfold print_int.
  rewrite DecimalString.NilZero.isi by assumption. simpl.
  rewrite DecimalZ.of_to. reflexivity.
Qed.


Lemma digit_char_ok (k : Z) : 0 <= k <= 9 -> digit_val (digit_char k) = Some k.
Proof.
  intro H.
  assert (k = 0 \/ k = 1 \/ k = 2 \/ k = 3 \/ k = 4 \/ k = 5 \/ k = 6 \/ k = 7
          \/ k = 8 \/ k = 9) as Hk by lia.
  repeat (destruct Hk as [->|Hk]; [reflexivity|]). subst. reflexivity.
Qed.

Lemma num_char_digit (k : Z) : 0 <= k <= 9 -> num_char (digit_char k) = true.
Proof. intro H. unfold num_char. rewrite digit_char_ok by exact H. reflexivity. Qed.

Lemma valid_date_bounds (y m d : Z) :
  valid_date y m d = true -> 1677 <= y <= 2262 /\ 1 <= m <= 12 /\ 1 <= d <= 31.
Proof.
  intro H. assert (Hd : days_in_month y m <= 31).
  { unfold days_in_month. destruct (m =? 2); [destruct (is_leap y)|];
    [lia|lia|destruct (_ || _); lia]. }
  unfold valid_date, date_le in H.
  rewrite !andb_true_iff, !orb_true_iff, !andb_true_iff, !orb_true_iff in H.
  rewrite !Z.leb_le, !Z.ltb_lt, !Z.eqb_eq in H. lia.
Qed.

Lemma digits4 (y : Z) : 0 <= y < 10000 ->
  y / 1000 * 1000 + (y / 100) mod 10 * 100 + (y / 10) mod 10 * 10 + y mod 10 = y.
Proof. intro H. Z.div_mod_to_equations. lia. Qed.

Lemma digits2 (m : Z) : 0 <= m < 100 -> m / 10 * 10 + m mod 10 = m.
Proof. intro H. Z.div_mod_to_equations. lia. Qed.

Ltac digit_bound := Z.div_mod_to_equations; lia.

Lemma print_date_num (y m d : Z) :
  valid_date y m d = true -> num_string (print_date y m d) = true.
Proof.
  intro H. apply valid_date_bounds in H.
  unfold print_date. cbn [num_string].
  rewrite !num_char_digit by digit_bound. reflexivity.
Qed.

Lemma parse_print_date (y m d : Z) :
  valid_date y m d = true -> parse_date (print_date y m d) = Some (y, m, d).
Proof.
  intro H. pose proof (valid_date_bounds y m d H) as B.
  unfold parse_date, print_date. cbv beta iota.
  rewrite !digit_char_ok by digit_bound.
  rewrite digits4, !digits2 by lia. rewrite H. reflexivity.
Qed.


Lemma print_cell_fits (t : col_kind) (c : cell) :
  fits t c = true ->
  special_free (print_cell c) = true
  /\ (c <> CNA -> print_cell c <> EmptyString /\ is_na (print_cell c) = false).
Proof.
  intro H. destruct t, c; simpl in H; try discriminate;
    try (split; [reflexivity | intro E; congruence]).
  - destruct (print_int_num z) as [Hs Hne]. simpl. split.
    + apply num_string_special_free. exact Hs.
    + intros _. split; [exact Hne|]. apply num_string_not_na; assumption.
  - pose proof (print_date_num y m d H) as Hs. simpl. split.
    + apply num_string_special_free. exact Hs.
    + intros _. split; [discriminate|]. apply num_string_not_na; [discriminate|exact Hs].
  - unfold text_safe in H. apply andb_prop in H as [H _].
    apply andb_prop in H as [H Hsf].
    apply andb_prop in H as [Hna _]. apply negb_true_iff in Hna. simpl.
    split; [exact Hsf|]. intros _. split; [|exact Hna].
    intro E. subst s. discriminate Hna.
Qed.

Lemma conv_blank (k : col_kind) : conv k EmptyString = CNA.
Proof. destruct k; reflexivity. Qed.

(** dtype inference on a written column gives back each field, up to the
    coercion of numeric text. *)
Lemma infer_kind_column (t : col_kind) (cs : list cell) (c : cell) :
  Forall (fun c => fits t c = true) cs -> In c cs ->
  cell_coerced (conv (infer_kind (is_date_kind t) (map print_cell cs)) (print_cell c)) c.
Proof.
  intros Hall Hin.
  assert (Hfit : fits t c = true) by (rewrite Forall_forall in Hall; auto).
  assert (V : forall v, In v (filter (fun s => negb (is_na s)) (map print_cell cs)) ->
              exists c', In c' cs /\ c' <> CNA /\ v = print_cell c').
  { intros v Hv. apply filter_In in Hv as [Hv Hna]. apply in_map_iff in Hv as [c' [<- Hc']].
    exists c'. split; [exact Hc'|]. split; [|reflexivity].
    intro E. subst c'. discriminate Hna. }
  assert (Hinv : c <> CNA ->
                 In (print_cell c) (filter (fun s => negb (is_na s)) (map print_cell cs))).
  { intro Hc. apply filter_In. split; [apply in_map; exact Hin|].
    destruct (print_cell_fits t c Hfit) as [_ H]. rewrite (proj2 (H Hc)). reflexivity. }
  destruct (print_cell_fits t c Hfit) as [_ Hp].
  destruct c as [z|b|y m d|s|]; [| | | |left; apply conv_blank].
  all: specialize (Hinv ltac:(discriminate)); specialize (Hp ltac:(discriminate));
       destruct Hp as [_ Hna].
  all: destruct t; simpl in Hfit; try discriminate.
  - (* a number *)
    unfold infer_kind. simpl andb.
    replace (forallb (fun s => is_some (parse_int s)) _) with true.
    + left. unfold conv. rewrite Hna. simpl. rewrite parse_int_print_int. reflexivity.
    + symmetry. apply forallb_forall. intros v Hv.
      destruct (V v Hv) as [c' [Hc' [Hne ->]]].
      rewrite Forall_forall in Hall. specialize (Hall c' Hc').
      destruct c'; simpl in Hall; try discriminate; [|congruence].
      simpl. rewrite parse_int_print_int. reflexivity.
  - (* a date *)
    unfold infer_kind. simpl andb.
    replace (forallb (fun s => is_some (parse_date s)) _) with true.
    + left. unfold conv. rewrite Hna. cbn [print_cell].
      rewrite parse_print_date by exact Hfit.
      reflexivity.
    + symmetry. apply forallb_forall. intros v Hv.
      destruct (V v Hv) as [c' [Hc' [Hne ->]]].
      rewrite Forall_forall in Hall. specialize (Hall c' Hc').
      destruct c'; simpl in Hall; try discriminate; [|congruence].
      cbn [print_cell]. rewrite parse_print_date by exact Hall. reflexivity.
  - (* a text *)
    unfold infer_kind. simpl andb. simpl in Hna.
    destruct (forallb (fun s => is_some (parse_int s)) _) eqn:Ei.
    + rewrite forallb_forall in Ei. specialize (Ei s Hinv).
      destruct (parse_int s) as [z|] eqn:Ez; [|discriminate].
      right. exists s, z. split; [reflexivity|]. split; [exact Ez|].
      unfold conv. simpl. rewrite Hna, Ez. reflexivity.
    + destruct (forallb is_bool_token _) eqn:Eb.
      * rewrite forallb_forall in Eb. specialize (Eb s Hinv).
        unfold text_safe in Hfit. rewrite Eb in Hfit.
        rewrite andb_false_r in Hfit. simpl in Hfit. discriminate.
      * left. unfold conv. simpl. rewrite Hna. reflexivity.
Qed.


Lemma in_date_cols_names (names : list string) (types : list col_kind) (x : string) :
  In x (map fst (filter (fun p => is_date_kind (snd p)) (combine names types))) ->
  In x names.
Proof.
  revert types. induction names as [|n ns IH]; intros [|t ts] H; simpl in *; try contradiction.
  destruct (is_date_kind t); simpl in H.
  - destruct H as [H|H]; [left; exact H|right; exact (IH ts H)].
  - right. exact (IH ts H).
Qed.

Lemma mem_str_false (x : string) (l : list string) : ~ In x l -> mem_str x l = false.
Proof.
  intro H. unfold mem_str. apply not_true_iff_false. intro E.
  apply existsb_exists in E as [y [Hy Hxy]]. apply String.eqb_eq in Hxy. subst y.
  contradiction.
Qed.

Lemma mem_date_cols (names : list string) (types : list col_kind) (i : nat) :
  NoDup names -> List.length types = List.length names -> (i < List.length names)%nat ->
  mem_str (nth i names EmptyString)
          (map fst (filter (fun p => is_date_kind (snd p)) (combine names types)))
  = is_date_kind (nth i types KNum).
Proof.
  revert types i. induction names as [|n ns IH]; intros [|t ts] i Hnd Hl Hi;
    simpl in *; try lia.
  inversion Hnd as [|? ? Hn Hns]; subst.
  destruct i as [|i].
  - destruct (is_date_kind t) eqn:Et; simpl.
    + unfold mem_str. simpl. rewrite String.eqb_refl. reflexivity.
    + apply mem_str_false. intro H. apply in_date_cols_names in H. contradiction.
  - destruct (is_date_kind t); simpl.
    + unfold mem_str. simpl. fold (mem_str (nth i ns EmptyString)
        (map fst (filter (fun p => is_date_kind (snd p)) (combine ns ts)))).
      rewrite IH by (assumption || lia).
      replace (String.eqb (nth i ns EmptyString) n) with false; [reflexivity|].
      symmetry. apply String.eqb_neq. intro E. apply Hn. rewrite <- E.
      apply nth_In. lia.
    + apply IH; (assumption || lia).
Qed.

Lemma special_free_chars (f : string) :
  special_free f = true -> has_char semicolon f = false /\ has_char nl f = false.
Proof.
  unfold special_free. intro H. apply andb_prop in H as [H _].
  apply negb_true_iff in H. rewrite !orb_false_iff in H. tauto.
Qed.

Lemma fields_special_free (types : list col_kind) (r : list cell) :
  Forall2 (fun t c => fits t c = true) types r ->
  Forall (fun f => special_free f = true) (map print_cell r).
Proof.
  induction 1 as [|t c ts cs Hc _ IH]; constructor; [|exact IH].
  exact (proj1 (print_cell_fits t c Hc)).
Qed.

Lemma filter_lines (sep : ascii) (ls : list string) :
  Forall (fun l => blank_line sep l = false) ls ->
  filter (fun l => negb (blank_line sep l)) (ls ++ [EmptyString]) = ls.
Proof.
  intro H. rewrite filter_app. simpl. rewrite app_nil_r. apply filter_all_true.
  eapply Forall_impl; [|exact H]. intros l Hl. rewrite Hl. reflexivity.
Qed.

Lemma has_sep_not_blank (sep : ascii) (l : string) :
  has_char sep l = true -> blank_line sep l = false.
Proof.
  unfold blank_line. induction l as [|c l IH]; simpl; [discriminate|]. intro H.
  apply orb_true_iff in H as [H|H].
  - rewrite H. simpl. rewrite !andb_false_r. reflexivity.
  - rewrite (IH H). apply andb_false_r.
Qed.

Lemma join_has_sep (c : ascii) (f g : string) (fs : list string) :
  has_char c (join_with c (f :: g :: fs)) = true.
Proof.
  change (join_with c (f :: g :: fs)) with (append f (String c (join_with c (g :: fs)))).
  rewrite has_char_append. cbn [has_char]. rewrite Ascii.eqb_refl. apply orb_true_r.
Qed.

Lemma Forall2_map_self {A B : Type} (P : B -> A -> Prop) (g : A -> B) (l : list A) :
  Forall (fun x => P (g x) x) l -> Forall2 P (map g l) l.
Proof. induction 1; constructor; assumption. Qed.

Lemma nth_print (i : nat) (r : list cell) :
  nth i (map print_cell r) EmptyString = print_cell (nth i r CNA).
Proof. exact (map_nth print_cell r CNA i). Qed.

Lemma well_formed_roundtrip (D : dataset) : well_formed D -> csv_roundtrip D.
Proof.
  intros [Hne [Hnd [Hnm [Hlt [Hrows Hone]]]]].
  destruct D as [names types rows]; cbn [d_names d_types d_rows] in *.
  assert (HrowL : forall r, In r rows -> List.length r = List.length names).
  { intros r Hr. rewrite Forall_forall in Hrows. rewrite <- Hlt.
    symmetry. exact (Forall2_length (Hrows r Hr)). }
  assert (Hsf : forall r, In r rows -> Forall (fun f => special_free f = true) (map print_cell r)).
  { intros r Hr. rewrite Forall_forall in Hrows. exact (fields_special_free _ _ (Hrows r Hr)). }
  assert (Hnames_sf : Forall (fun f => special_free f = true) names).
  { eapply Forall_impl; [|exact Hnm]. intros n [_ H]. exact H. }
  assert (Hlen1 : (1 <= List.length names)%nat).
  { destruct names; [congruence|simpl; lia]. }
  set (L := join_with semicolon names
            :: map (fun r => join_with semicolon (map print_cell r)) rows).
  assert (HLnl : Forall (fun l => has_char nl l = false) L).
  { constructor.
    - apply has_char_join; [reflexivity|].
      eapply Forall_impl; [|exact Hnames_sf]. intros f Hf. exact (proj2 (special_free_chars f Hf)).
    - apply Forall_forall. intros l Hl. apply in_map_iff in Hl as [r [<- Hr]].
      apply has_char_join; [reflexivity|].
      eapply Forall_impl; [|exact (Hsf r Hr)]. intros f Hf. exact (proj2 (special_free_chars f Hf)). }
  assert (HLne : Forall (fun l => blank_line semicolon l = false) L).
  { constructor.
    - destruct names as [|n ns]; [congruence|]. destruct ns as [|n' ns].
      + destruct Hone as [H2|[Hn _]]; [simpl in H2; lia|].
        inversion Hn; assumption.
      + apply has_sep_not_blank, join_has_sep.
    - apply Forall_forall. intros l Hl. apply in_map_iff in Hl as [r [<- Hr]].
      pose proof (HrowL r Hr) as Hlr.
      destruct r as [|c cs]; [simpl in Hlr; lia|]. destruct cs as [|c' cs].
      + destruct Hone as [H2|[_ Hno]]; [simpl in Hlr; lia|].
        rewrite Forall_forall in Hno. specialize (Hno [c] Hr).
        inversion Hno; subst. cbn [map join_with]. assumption.
      + cbn [map]. apply has_sep_not_blank, join_has_sep. }
  assert (Hraw : map (split_on semicolon)
                   (map (fun r => join_with semicolon (map print_cell r)) rows)
                 = map (map print_cell) rows).
  { rewrite map_map. apply map_ext_in. intros r Hr. apply split_join.
    - pose proof (HrowL r Hr). destruct r; simpl in *; [lia|discriminate].
    - eapply Forall_impl; [|exact (Hsf r Hr)]. intros f Hf. exact (proj1 (special_free_chars f Hf)). }
  assert (Hex : existsb (fun r => (List.length names <? List.length r)%nat)
                        (map (map print_cell) rows) = false).
  { apply not_true_iff_false. intro E. apply existsb_exists in E as [r [Hr Hl]].
    apply in_map_iff in Hr as [r0 [<- Hr0]]. rewrite length_map, (HrowL r0 Hr0) in Hl.
    rewrite Nat.ltb_irrefl in Hl. discriminate. }
  assert (Hpad : map (pad_to (List.length names)) (map (map print_cell) rows)
                 = map (map print_cell) rows).
  { rewrite map_map. apply map_ext_in. intros r0 Hr0.
    unfold pad_to. rewrite length_map, (HrowL r0 Hr0), Nat.sub_diag. apply app_nil_r. }
  unfold csv_roundtrip, decode, encode, read_csv. cbn [d_names d_types d_rows].
  fold L. rewrite split_lines by exact HLnl. rewrite filter_lines by exact HLne.
  unfold L. cbv beta iota zeta.
  rewrite (split_join semicolon names Hne)
    by (eapply Forall_impl; [|exact Hnames_sf]; intros f Hf; exact (proj1 (special_free_chars f Hf))).
  rewrite Hraw, Hex, Hpad.
  eexists. split; [reflexivity|]. cbn [f_names f_rows]. split; [reflexivity|].
  rewrite map_map. apply Forall2_map_self. apply Forall_forall. intros r0 Hr0.
  pose proof (HrowL r0 Hr0) as Hl0.
  pose proof Hrows as Hrows'. rewrite Forall_forall in Hrows'.
  apply (Forall2_nth_iff _ _ _ CNA CNA). split.
  { rewrite length_map, length_combine, length_map, length_map, length_seq. lia. }
  intros i Hi.
  rewrite length_map, length_combine, length_map, length_map, length_seq in Hi.
  rewrite (nth_map_lt _ _ i CNA (KNum, EmptyString))
    by (rewrite length_combine, length_map, length_map, length_seq; lia).
  rewrite combine_nth by (rewrite length_map, length_map, length_seq; lia).
  cbn [fst snd]. rewrite nth_print.
  rewrite (nth_map_lt _ _ i KNum 0%nat) by (rewrite length_seq; lia).
  rewrite seq_nth by lia. cbn [Nat.add].
  unfold date_cols. cbn [d_names d_types].
  rewrite mem_date_cols by (assumption || lia).
  replace (map (fun r => nth i r EmptyString) (map (map print_cell) rows))
    with (map print_cell (map (fun r => nth i r CNA) rows))
    by (rewrite !map_map; apply map_ext; intro r; symmetry; apply nth_print).
  apply infer_kind_column.
  - apply Forall_forall. intros c Hc. apply in_map_iff in Hc as [r [<- Hr]].
    destruct (proj1 (Forall2_nth_iff _ _ _ KNum CNA) (Hrows' r Hr)) as [_ Hn].
    apply Hn. lia.
  - apply (in_map (fun r => nth i r CNA)). exact Hr0.
Qed.

End RoundTripFacts.

Section NpzFacts.
Import CsvWrite Npz.

Lemma string_length_append (a b : string) :
  String.length (append a b) = (String.length a + String.length b)%nat.
Proof. induction a as [|c a IH]; simpl; [reflexivity|]. rewrite IH. reflexivity. Qed.

Lemma strip_npy_cons (c : ascii) (s : string) :
  strip_npy (String c s)
  = if String.eqb (String c s) npy_suffix then Some EmptyString
    else option_map (String c) (strip_npy s).
Proof. reflexivity. Qed.

Lemma strip_npy_app (k : string) : strip_npy (append k npy_suffix) = Some k.
Proof.
  induction k as [|c k IH]; [reflexivity|].
  change (append (String c k) npy_suffix) with (String c (append k npy_suffix)).
  rewrite strip_npy_cons, IH.
  replace (String.eqb (String c (append k npy_suffix)) npy_suffix) with false;
    [reflexivity|].
  symmetry. apply String.eqb_neq. intro E. apply (f_equal String.length) in E.
  simpl in E. rewrite string_length_append in E. simpl in E. lia.
Qed.

Lemma has_dot_npy (k : string) : has_char dot (append k npy_suffix) = true.
Proof. rewrite has_char_append. apply orb_true_r. Qed.

Lemma lookup_plain_key (k : string) (kwargs : list (string * list R)) :
  has_char dot k = false -> lookup k (savez kwargs) = None.
Proof.
  intro Hk. induction kwargs as [|[n v] kw IH]; [reflexivity|]. simpl.
  replace (String.eqb (append n npy_suffix) k) with false; [exact IH|].
  symmetry. apply String.eqb_neq. intro E. rewrite <- E, has_dot_npy in Hk. discriminate.
Qed.

Lemma lookup_npy_key (k : string) (v : list R) (kwargs : list (string * list R)) :
  NoDup (map fst kwargs) -> In (k, v) kwargs ->
  lookup (append k npy_suffix) (savez kwargs) = Some v.
Proof.
  induction kwargs as [|[n w] kw IH]; intros Hnd Hin; [destruct Hin|].
  simpl in Hnd. inversion Hnd as [|? ? Hn Hkw]; subst. simpl.
  destruct (String.eqb (append n npy_suffix) (append k npy_suffix)) eqn:E.
  - apply String.eqb_eq in E.
    assert (n = k) as ->.
    { apply (f_equal strip_npy) in E. rewrite !strip_npy_app in E. congruence. }
    destruct Hin as [Hin|Hin]; [congruence|].
    exfalso. apply Hn. apply (in_map fst) in Hin. exact Hin.
  - destruct Hin as [Hin|Hin].
    + injection Hin as -> ->. rewrite String.eqb_refl in E. discriminate.
    + apply IH; assumption.
Qed.

Lemma npz_roundtrip_ok (kwargs : list (string * list R)) :
  NoDup (map fst kwargs) -> Forall (fun p => has_char dot (fst p) = false) kwargs ->
  npz_roundtrip kwargs.
Proof.
  intros Hnd Hdot. split.
  - unfold files, savez. rewrite map_map. apply map_ext. intros [k v]. simpl.
    rewrite strip_npy_app. reflexivity.
  - apply Forall_forall. intros [k v] Hin. simpl. unfold getitem.
    rewrite Forall_forall in Hdot.
    rewrite lookup_plain_key by exact (Hdot (k, v) Hin).
    apply lookup_npy_key; assumption.
Qed.

End NpzFacts.

Section RoundTrip.
Import Csv Frame CsvWrite Npz.
Local Open Scope Z_scope.



End RoundTrip.

(* ------------------------------------------------------------------ *)
(** ** Properties of the further code *)

Section PyMoreFacts.
Import PyList PyBuiltins.
Local Open Scope nat_scope.

(** zip pairs the elements position by position and stops at the end of the
    shorter list: the result has the length of the shorter input, its first
    components are the first len(l2) items of l1 and its second components
    the first len(l1) items of l2. *)
Theorem zip_truncates {A B : Type} (l1 : list A) (l2 : list B) :
  List.length (py_zip l1 l2) = Nat.min (List.length l1) (List.length l2)
  /\ map fst (py_zip l1 l2) = firstn (List.length l2) l1
  /\ map snd (py_zip l1 l2) = firstn (List.length l1) l2.
Proof.
  revert l2. induction l1 as [|x l1 IH]; intros [|y l2]; simpl;
    try (repeat split; reflexivity).
  destruct (IH l2) as [H1 [H2 H3]]. rewrite H1, H2, H3. repeat split.
Qed.

(** del L[i] raises IndexError exactly when i < -len(L) or i >= len(L), and
    a negative index -len(L) <= i < 0 deletes the same element as i +
    len(L). *)
Theorem del_index_range {A : Type} (i : Z) (L : list A) :
  let n := Z.of_nat (List.length L) in
  (py_del i L = inr IndexError <-> (i < - n \/ n <= i)%Z)
  /\ ((- n <= i < 0)%Z -> py_del i L = py_del (i + n) L).
Proof.
  intro n. unfold py_del. fold n. split.
  - destruct (Z.ltb_spec i 0) as [Hi|Hi]; cbv iota.
    + destruct (Z.leb_spec 0 (i + n)); destruct (Z.ltb_spec (i + n) n); simpl;
        split; intro E; try discriminate; try reflexivity; lia.
    + destruct (Z.leb_spec 0 i); destruct (Z.ltb_spec i n); simpl;
        split; intro E; try discriminate; try reflexivity; lia.
  - intros [Hlo Hhi].
    assert (E1 : (i <? 0)%Z = true) by (apply Z.ltb_lt; lia).
    assert (E2 : (i + n <? 0)%Z = false) by (apply Z.ltb_ge; lia).
    rewrite E1, E2. reflexivity.
Qed.

Lemma py_remove_error {A : Type} (eq_dec : forall x y : A, {x = y} + {x <> y})
  (v : A) (L : list A) (e : py_error) :
  py_remove eq_dec v L = inr e -> e = ValueError.
Proof.
  induction L as [|x L IH]; simpl; [congruence|].
  destruct (py_eq eq_dec x v); [discriminate|].
  destruct (py_remove eq_dec v L); [discriminate|]. intro H. injection H as <-. auto.
Qed.

(** L.remove(v) raises ValueError exactly when v is not in L; otherwise it
    deletes exactly the first occurrence of v: the result is pre + post
    where L = pre + [v] + post and v does not occur in pre. *)
Theorem remove_first_occurrence {A : Type} (eq_dec : forall x y : A, {x = y} + {x <> y})
  (v : A) (L : list A) :
  (py_remove eq_dec v L = inr ValueError <-> ~ In v L)
  /\ (forall L', py_remove eq_dec v L = inl L'
                 <-> exists pre post, L = pre ++ v :: post /\ ~ In v pre /\ L' = pre ++ post).
Proof.
  induction L as [|x L IH].
  - split; [split; [intros _ []|reflexivity]|].
    intro L'. split; [discriminate|]. intros [pre [post [E _]]].
    destruct pre; discriminate.
  - simpl. unfold py_eq. destruct (eq_dec x v) as [->|Hxv].
    + split.
      * split; [discriminate|]. intro H. exfalso. apply H. left. reflexivity.
      * intro L'. split.
        -- intro H. injection H as <-. exists [], L. repeat split. intros [].
        -- intros [pre [post [E [Hpre ->]]]].
           destruct pre as [|y pre]; simpl in E.
           ++ injection E as ->. reflexivity.
           ++ injection E as -> _. exfalso. apply Hpre. left. reflexivity.
    + destruct IH as [IH1 IH2].
      destruct (py_remove eq_dec v L) as [L''|e] eqn:E.
      * split.
        -- split; [discriminate|]. intro H. exfalso. apply H. right.
           destruct (proj1 (IH2 L'') eq_refl) as [pre [post [-> _]]].
           apply in_or_app. right. left. reflexivity.
        -- intro L'. split.
           ++ intro H. injection H as <-.
              destruct (proj1 (IH2 L'') eq_refl) as [pre [post [-> [Hpre ->]]]].
              exists (x :: pre), post. repeat split.
              intros [H|H]; [exact (Hxv H)|exact (Hpre H)].
           ++ intros [pre [post [Ex [Hpre ->]]]].
              destruct pre as [|y pre]; simpl in Ex; injection Ex as -> Ex; [congruence|].
              assert (Hr : (inl L'' : list A + py_error) = inl (pre ++ post)).
              { apply IH2. exists pre, post. repeat split; [exact Ex|].
                intro H. apply Hpre. right. exact H. }
              injection Hr as ->. reflexivity.
      * pose proof (py_remove_error eq_dec v L e E) as ->.
        assert (Hn : ~ In v L) by (apply IH1; reflexivity).
        clear IH2.
        split.
        -- split; [|reflexivity]. intros _ [H|H]; [exact (Hxv H)|exact (Hn H)].
        -- intro L'. split; [discriminate|].
           intros [pre [post [Ex _]]]. exfalso.
           assert (Hin : In v (x :: L)) by (rewrite Ex; apply in_or_app; right; left; reflexivity).
           destruct Hin as [H|H]; [exact (Hxv H)|exact (Hn H)].
Qed.

(** L.pop() raises IndexError exactly on the empty list; otherwise it
    returns the last element x and leaves the rest L', with L = L' + [x]. *)
Theorem pop_last {A : Type} (L : list A) :
  (py_pop L = inr IndexError <-> L = [])
  /\ (forall x L', py_pop L = inl (x, L') <-> L = L' ++ [x]).
Proof.
  unfold py_pop. destruct (rev L) as [|y r] eqn:E.
  - assert (HL : L = []) by (rewrite <- (rev_involutive L), E; reflexivity).
    subst L. split; [split; reflexivity|].
    intros x L'. split; [discriminate|]. intro H. destruct L'; discriminate.
  - assert (HL : L = rev r ++ [y]) by (rewrite <- (rev_involutive L), E; reflexivity).
    split.
    + split; [discriminate|]. intro H. rewrite HL in H. destruct (rev r); discriminate.
    + intros x L'. split.
      * intro H. injection H as <- <-. exact HL.
      * intro H. rewrite HL in H. apply app_inj_tail in H as [-> ->]. reflexivity.
Qed.

(** The comprehension [x for x in L if x != value] keeps len(L) minus the
    number of occurrences of value elements, and the elements it drops are
    exactly count(value) copies of value. *)
Theorem filter_partition {A : Type} (eq_dec : forall x y : A, {x = y} + {x <> y})
  (v : A) (L : list A) :
  List.length (filter_ne eq_dec v L) + count_occ eq_dec L v = List.length L
  /\ filter_eq eq_dec v L = repeat v (count_occ eq_dec L v).
Proof.
  unfold filter_ne, filter_eq, py_eq.
  induction L as [|x L [IH1 IH2]]; [split; reflexivity|].
  simpl. destruct (eq_dec x v) as [->|Hxv]; simpl.
  - split; [lia|]. rewrite IH2. reflexivity.
  - split; [lia|]. exact IH2.
Qed.

End PyMoreFacts.

Section NumPyFacts.
Import NumPy.
Local Open Scope Z_scope.

Lemma combine_add_comm (a b : list Z) :
  map (fun p => wrap64 (fst p + snd p)) (combine a b)
  = map (fun p => wrap64 (fst p + snd p)) (combine b a).
Proof.
  revert b. induction a as [|x a IH]; intros [|y b]; simpl; try reflexivity.
  rewrite Z.add_comm, IH. reflexivity.
Qed.

(** Addition of 1-D int64 arrays is commutative, and fails with ValueError
    exactly when the lengths differ and neither operand has length 1 (a
    length-1 operand is broadcast). *)
Theorem np_add_broadcast (a b : list Z) :
  np_add a b = np_add b a
  /\ (np_add a b = None
      <-> List.length a <> List.length b /\ List.length a <> 1%nat
          /\ List.length b <> 1%nat).
Proof.
  unfold np_add.
  destruct (Nat.eqb_spec (List.length a) (List.length b)) as [Hab|Hab];
  destruct (Nat.eqb_spec (List.length b) (List.length a)) as [Hba|Hba]; try lia.
  - split; [rewrite combine_add_comm; reflexivity|]. split; [discriminate|].
    intros [H _]. contradiction.
  - destruct (Nat.eqb_spec (List.length a) 1) as [Ha|Ha];
    destruct (Nat.eqb_spec (List.length b) 1) as [Hb|Hb]; try lia.
    + split; [|split; [discriminate|intros [_ [H _]]; contradiction]].
      f_equal. apply map_ext. intro y. rewrite Z.add_comm. reflexivity.
    + split; [|split; [discriminate|intros [_ [_ H]]; contradiction]].
      f_equal. apply map_ext. intro x. rewrite Z.add_comm. reflexivity.
    + split; [reflexivity|]. split; [intros _; lia|reflexivity].
Qed.

(** For a positive step, np.arange(start, stop, step) returns exactly the
    integers x with start <= x < stop and (x - start) divisible by step, and
    consecutive entries differ by step. *)
Theorem arange_values (start stop step : Z) (Hstep : 0 < step) :
  exists xs, arange start stop step = Some xs
  /\ (forall x, In x xs <-> start <= x < stop /\ (x - start) mod step = 0)
  /\ (forall i, (S i < List.length xs)%nat -> nth (S i) xs 0 = nth i xs 0 + step).
Proof.
  unfold arange. rewrite (proj2 (Z.eqb_neq step 0)) by lia.
  set (N := Z.to_nat (Z.max 0 (ceil_div (stop - start) step))).
  eexists. split; [reflexivity|]. split.
  - intro x. rewrite in_map_iff. split.
    + intros [i [<- Hi]]. apply in_seq in Hi. unfold N, ceil_div in Hi.
      split.
      * split; [nia|].
        assert (Hc : Z.of_nat i < - (- (stop - start) / step)) by lia.
        Z.div_mod_to_equations. nia.
      * replace (start + step * Z.of_nat i - start) with (Z.of_nat i * step) by ring.
        apply Z.mod_mul. lia.
    + intros [[Hlo Hhi] Hm].
      exists (Z.to_nat ((x - start) / step)).
      pose proof (Z.div_mod (x - start) step ltac:(lia)) as Hd. rewrite Hm in Hd.
      assert (Hq : 0 <= (x - start) / step) by (apply Z.div_pos; lia).
      split.
      * rewrite Z2Nat.id by exact Hq. lia.
      * apply in_seq. split; [lia|]. unfold N, ceil_div.
        assert (Hc : (x - start) / step < - (- (stop - start) / step)).
        { set (q := (x - start) / step) in *. Z.div_mod_to_equations. nia. }
        lia.
  - intros i Hi. rewrite length_map, length_seq in Hi.
    rewrite (nth_map_lt _ _ (S i) 0 0%nat) by (rewrite length_seq; lia).
    rewrite (nth_map_lt _ _ i 0 0%nat) by (rewrite length_seq; lia).
    rewrite !seq_nth by lia. simpl. lia.
Qed.

Lemma arange_values_witness :
  exists xs, arange 0 10 2 = Some xs
  /\ (forall x, In x xs <-> 0 <= x < 10 /\ (x - 0) mod 2 = 0)
  /\ (forall i, (S i < List.length xs)%nat -> nth (S i) xs 0 = nth i xs 0 + 2).
Proof. apply (arange_values 0 10 2). lia. Defined.

Lemma divmod_pair (r i j : nat) :
  (i < r -> (j * r + i) / r = j /\ (j * r + i) mod r = i)%nat.
Proof.
  intro H. split.
  - symmetry. apply (Nat.div_unique _ _ _ i); [exact H|lia].
  - symmetry. apply (Nat.mod_unique _ _ j); [exact H|lia].
Qed.

(** reshape((r, c)) fails with ValueError exactly when r * c differs from
    the array size; otherwise the transpose has shape (c, r), its element
    (j, i) is element (i, j) of the reshaped array (flat position i * c +
    j), and transposing twice gives back the reshaped array. *)
Theorem reshape_transpose {X : Type} (d : X) (a : list X) (r c : nat) :
  (reshape a r c = None <-> r * c <> List.length a)%nat
  /\ ((r * c = List.length a)%nat ->
      exists m, reshape a r c = Some m
      /\ shape (transpose d m) = (c, r)
      /\ (forall i j, (i < r)%nat -> (j < c)%nat ->
            get2 d (transpose d m) j i = nth (i * c + j)%nat a d)
      /\ transpose d (transpose d m) = m).
Proof.
  unfold reshape. split.
  - destruct (Nat.eqb_spec (r * c) (List.length a)); split; congruence.
  - intro Hrc. rewrite (proj2 (Nat.eqb_eq _ _) Hrc).
    eexists. split; [reflexivity|]. split; [reflexivity|]. split.
    + intros i j Hi Hj. unfold get2, transpose. simpl.
      rewrite (nth_map_lt _ _ _ d 0%nat) by (rewrite length_seq; nia).
      rewrite seq_nth by nia. simpl.
      destruct (divmod_pair r i j Hi) as [H1 H2]. rewrite H1, H2. reflexivity.
    + unfold transpose. simpl. f_equal.
      apply nth_ext with (d := d) (d' := d).
      { rewrite length_map, length_seq. lia. }
      intros k Hk. rewrite length_map, length_seq in Hk.
      assert (Hc : (0 < c)%nat) by (destruct c; lia).
      assert (Hkc : (k / c < r)%nat) by (apply Nat.Div0.div_lt_upper_bound; lia).
      assert (Hkm : (k mod c < c)%nat) by (apply Nat.mod_upper_bound; lia).
      rewrite (nth_map_lt _ _ _ d 0%nat) by (rewrite length_seq; lia).
      rewrite seq_nth by lia. simpl.
      rewrite (nth_map_lt _ _ _ d 0%nat) by (rewrite length_seq; nia).
      rewrite seq_nth by nia. simpl.
      destruct (divmod_pair r (k / c) (k mod c) Hkc) as [H1 H2]. rewrite H1, H2.
      rewrite Nat.mul_comm, <- Nat.div_mod by lia. reflexivity.
Qed.

(** Boolean indexing a[mask] fails with IndexError exactly when the mask
    length differs from the array length, and indexing with a mask computed
    elementwise by a predicate (such as z % 2 == 0) returns the elements
    satisfying it, in order. *)
Theorem bool_index_filter {X : Type} (a : list X) (mask : list bool) (p : X -> bool) :
  (bool_index a mask = None <-> List.length mask <> List.length a)
  /\ bool_index a (map p a) = Some (filter p a).
Proof.
  unfold bool_index. split.
  - destruct (Nat.eqb_spec (List.length mask) (List.length a)); split; congruence.
  - rewrite length_map, Nat.eqb_refl. f_equal.
    induction a as [|x a IH]; [reflexivity|]. simpl.
    destruct (p x); simpl; rewrite IH; reflexivity.
Qed.

End NumPyFacts.

Section LinspaceFacts.
Import NumPyR.
Local Open Scope R_scope.

(** For num >= 2, np.linspace(start, stop, num) has num values, starts at
    start, ends exactly at stop, and consecutive values differ by (stop -
    start) / (num - 1) (over the reals). *)
Theorem linspace_endpoints (start stop : R) (num : nat) (Hnum : (2 <= num)%nat) :
  let ys := linspace start stop num in
  List.length ys = num
  /\ nth 0 ys 0 = start
  /\ nth (num - 1) ys 0 = stop
  /\ (forall i, (S i < num)%nat -> nth (S i) ys 0 - nth i ys 0 = (stop - start) / INR (num - 1)).
Proof.
  intro ys. unfold ys, linspace.
  rewrite (proj2 (Nat.ltb_lt 1 num)) by lia.
  set (step := (stop - start) / INR (num - 1)).
  set (y := map (fun i => INR i * step + start) (seq 0 num)).
  assert (Hy : List.length y = num) by (unfold y; rewrite length_map, length_seq; reflexivity).
  assert (Hf : List.length (firstn (num - 1) y) = (num - 1)%nat)
    by (rewrite length_firstn; lia).
  assert (Hyn : forall k, (k < num)%nat -> nth k y 0 = INR k * step + start).
  { intros k Hk. unfold y. rewrite (nth_map_lt _ _ k 0 0%nat) by (rewrite length_seq; lia).
    rewrite seq_nth by lia. reflexivity. }
  assert (Hnz : INR (num - 1) <> 0) by (apply not_0_INR; lia).
  split; [rewrite length_app, Hf; simpl; lia|].
  split.
  { rewrite app_nth1 by lia. rewrite nth_firstn, (proj2 (Nat.ltb_lt 0 (num - 1))) by lia.
    rewrite Hyn by lia. simpl. ring. }
  split.
  { rewrite app_nth2 by lia. rewrite Hf, Nat.sub_diag. reflexivity. }
  intros i Hi.
  destruct (Nat.eq_dec (S i) (num - 1)) as [E|E].
  - rewrite app_nth2 by lia. rewrite Hf, E, Nat.sub_diag.
    rewrite app_nth1 by lia. rewrite nth_firstn, (proj2 (Nat.ltb_lt i (num - 1))) by lia.
    rewrite Hyn by lia. simpl.
    assert (Hi' : INR (num - 1) = INR i + 1) by (rewrite <- E, S_INR; reflexivity).
    unfold step. rewrite Hi'. rewrite Hi' in Hnz. field. exact Hnz.
  - rewrite !app_nth1 by lia.
    rewrite !nth_firstn, (proj2 (Nat.ltb_lt i (num - 1))), (proj2 (Nat.ltb_lt (S i) (num - 1)))
      by lia.
    rewrite !Hyn by lia. rewrite S_INR. ring.
Qed.

Lemma linspace_endpoints_witness :
  let ys := linspace 0 1 3 in
  List.length ys = 3%nat
  /\ nth 0 ys 0 = 0
  /\ nth (3 - 1) ys 0 = 1
  /\ (forall i, (S i < 3)%nat -> nth (S i) ys 0 - nth i ys 0 = (1 - 0) / INR (3 - 1)).
Proof. apply (linspace_endpoints 0 1 3). lia. Defined.

End LinspaceFacts.

Section NpzMoreFacts.
Import CsvWrite Npz.
Local Open Scope nat_scope.

Lemma lookup_none_iff (k : string) (a : archive) :
  lookup k a = None <-> ~ In k (map fst a).
Proof.
  induction a as [|[n v] a IH]; simpl; [split; auto|].
  destruct (String.eqb_spec n k) as [->|Hn].
  - split; [discriminate|]. intro H. exfalso. apply H. left. reflexivity.
  - rewrite IH. split.
    + intros H [H'|H']; [exact (Hn H')|exact (H H')].
    + intros H H'. apply H. right. exact H'.
Qed.

(** After np.savez(file, **kwargs) and np.load, loaded[k] raises KeyError
    exactly when k is neither a keyword name nor a keyword name followed by
    .npy. *)
Theorem npz_getitem_keyerror (kwargs : list (string * list R)) (k : string) :
  getitem (savez kwargs) k = None
  <-> ~ In k (map fst kwargs)
      /\ ~ In k (map (fun n => append n npy_suffix) (map fst kwargs)).
Proof.
  assert (Hf : map fst (savez kwargs) = map (fun n => append n npy_suffix) (map fst kwargs)).
  { unfold savez. rewrite !map_map. reflexivity. }
  assert (Hin : In (append k npy_suffix) (map (fun n => append n npy_suffix) (map fst kwargs))
                <-> In k (map fst kwargs)).
  { rewrite in_map_iff. split.
    - intros [n [E Hn]]. apply (f_equal strip_npy) in E. rewrite !strip_npy_app in E.
      injection E as ->. exact Hn.
    - intro H. exists k. split; [reflexivity|exact H]. }
  unfold getitem. destruct (lookup k (savez kwargs)) as [v|] eqn:E1.
  - split; [discriminate|]. intros [_ H]. exfalso. apply H. rewrite <- Hf.
    destruct (in_dec String.string_dec k (map fst (savez kwargs))) as [Hi|Hi]; [exact Hi|].
    apply lookup_none_iff in Hi. rewrite E1 in Hi. discriminate.
  - apply lookup_none_iff in E1. rewrite Hf in E1.
    rewrite lookup_none_iff, Hf, Hin. tauto.
Qed.

End NpzMoreFacts.

Section PandasMoreFacts.
Import Csv Frame CsvWrite Pandas PandasMore.
Local Open Scope nat_scope.

Lemma length_pad_to (n : nat) (r : list string) :
  (List.length r <= n)%nat -> List.length (pad_to n r) = n.
Proof. intro H. unfold pad_to. rewrite length_app, repeat_length. lia. Qed.

Lemma text_no_char (c : ascii) (l : string) :
  text_char c = false -> all_chars text_char l = true -> has_char c l = false.
Proof.
  intro Hc. induction l as [|x l IH]; simpl; [reflexivity|]. intro H.
  apply andb_prop in H as [Hx Hl]. rewrite (IH Hl), orb_false_r.
  apply not_true_iff_false. intro E. apply Ascii.eqb_eq in E. subst x. congruence.
Qed.

(** When every line is plain ASCII text without double quotes, is neither
    empty nor made only of spaces and tabs, the header fields are distinct
    and non-empty, every [parse_dates] name is a header field, and no data
    line has more fields than the header, [pd.read_csv(..., sep=";")]
    succeeds before [index_col] moves a column into the index: the column
    names are the header fields, the default index is 0..n-1, every record
    has one value per column, and the fields missing at the end of a short
    line are NaN. *)
Theorem read_csv_row_width (parse_dates : list string) (h : string)
  (body : list string)
  (Hh : blank_line semicolon h = false)
  (Hb : Forall (fun l => blank_line semicolon l = false) body)
  (Htext : Forall (fun l => all_chars text_char l = true /\ has_char dquote l = false)
             (h :: body))
  (Hnames : NoDup (split_on semicolon h) /\ ~ In EmptyString (split_on semicolon h))
  (Hpd : incl parse_dates (split_on semicolon h))
  (Hshort : Forall (fun l => List.length (split_on semicolon l)
                             <= List.length (split_on semicolon h))%nat body) :
  exists f, read_csv semicolon parse_dates (lines_text (h :: body)) = Some f
  /\ f_names f = split_on semicolon h
  /\ f_index f = map (fun i => CNum (Z.of_nat i)) (seq 0 (List.length body))
  /\ List.length (f_kinds f) = List.length (f_names f)
  /\ Forall (fun r => List.length r = List.length (f_names f)) (f_rows f)
  /\ (forall i j, (i < List.length body)%nat ->
        (List.length (split_on semicolon (nth i body EmptyString)) <= j)%nat ->
        nth j (nth i (f_rows f) []) CNA = CNA).
Proof.
  assert (Hnl : Forall (fun l => has_char nl l = false) (h :: body)).
  { eapply Forall_impl; [|exact Htext]. intros l [Hl _].
    apply text_no_char; [reflexivity|exact Hl]. }
  unfold read_csv. rewrite split_lines by exact Hnl.
  rewrite filter_lines by (constructor; assumption). cbv beta iota zeta.
  set (ncol := List.length (split_on semicolon h)).
  - assert (Hex : existsb (fun r => (ncol <? List.length r)%nat) (map (split_on semicolon) body) = false).
    { apply not_true_iff_false. intro E. apply existsb_exists in E as [r [Hr Hl]].
      apply in_map_iff in Hr as [l [<- Hl0]]. rewrite Forall_forall in Hshort.
      specialize (Hshort l Hl0). apply Nat.ltb_lt in Hl. unfold ncol in Hl. lia. }
    rewrite Hex. eexists. split; [reflexivity|]. cbn [f_names f_index f_kinds f_rows].
    split; [reflexivity|].
    split; [rewrite !length_map; reflexivity|].
    split; [rewrite length_map, length_seq; reflexivity|].
    split.
    + apply Forall_forall. intros r Hr. apply in_map_iff in Hr as [p [<- Hp]].
      apply in_map_iff in Hp as [r0 [<- Hr0]]. apply in_map_iff in Hr0 as [l [<- Hl]].
      rewrite length_map, length_combine, length_map, length_seq, length_pad_to.
      * apply Nat.min_id.
      * rewrite Forall_forall in Hshort. exact (Hshort l Hl).
    + intros i j Hi Hj.
      destruct (Nat.lt_ge_cases j ncol) as [Hjn|Hjn].
      2:{ rewrite nth_overflow; [reflexivity|].
          rewrite (nth_map_lt _ _ i [] []) by (rewrite !length_map; exact Hi).
          rewrite length_map, length_combine, length_map, length_seq. lia. }
      rewrite (nth_map_lt _ _ i [] []) by (rewrite !length_map; exact Hi).
      rewrite (nth_map_lt _ _ i [] []) by (rewrite !length_map; exact Hi).
      rewrite (nth_map_lt _ _ i [] EmptyString) by exact Hi.
      assert (Hl : (List.length (split_on semicolon (nth i body EmptyString)) <= ncol)%nat).
      { rewrite Forall_forall in Hshort. apply Hshort. apply nth_In. exact Hi. }
      rewrite (nth_map_lt _ _ j CNA (KNum, EmptyString))
        by (rewrite length_combine, length_map, length_seq, length_pad_to by exact Hl; lia).
      rewrite combine_nth by (rewrite length_map, length_seq, length_pad_to by exact Hl; reflexivity).
      cbn [fst snd]. unfold pad_to. rewrite app_nth2 by exact Hj.
      rewrite nth_repeat_lt by lia. apply conv_blank.
Qed.

Lemma read_csv_row_width_witness :
  exists f, read_csv semicolon [] (lines_text ["a;b"; "1;2"; "3"]%string) = Some f
  /\ f_names f = split_on semicolon "a;b"
  /\ f_index f = map (fun i => CNum (Z.of_nat i)) (seq 0 (List.length ["1;2"; "3"]%string))
  /\ List.length (f_kinds f) = List.length (f_names f)
  /\ Forall (fun r => List.length r = List.length (f_names f)) (f_rows f)
  /\ (forall i j, (i < List.length ["1;2"; "3"]%string)%nat ->
        (List.length (split_on semicolon (nth i ["1;2"; "3"]%string EmptyString)) <= j)%nat ->
        nth j (nth i (f_rows f) []) CNA = CNA).
Proof.
  apply (read_csv_row_width [] "a;b" ["1;2"; "3"]%string).
  - reflexivity.
  - repeat constructor.
  - repeat constructor.
  - split.
    + repeat constructor; simpl; intuition discriminate.
    + simpl. intuition discriminate.
  - intros x Hx. destruct Hx.
  - repeat constructor; simpl; lia.
Defined.

Lemma py_slice_compose {X : Type} (a b a' b' : nat) (l : list X) :
  py_slice a' b' (py_slice a b l) = py_slice (a + a') (Nat.min b (a + b')) l.
Proof.
  unfold py_slice. rewrite skipn_firstn_comm, firstn_firstn, skipn_skipn.
  replace (a' + a)%nat with (a + a')%nat by lia. f_equal. lia.
Qed.

Lemma py_slice_map {X Y : Type} (g : X -> Y) (a b : nat) (l : list X) :
  py_slice a b (map g l) = map g (py_slice a b l).
Proof. unfold py_slice. rewrite skipn_map, firstn_map. reflexivity. Qed.

Lemma py_slice_length {X : Type} (a b : nat) (l : list X) :
  List.length (py_slice a b l) = (Nat.min b (List.length l) - a)%nat.
Proof. unfold py_slice. rewrite length_firstn, length_skipn. lia. Qed.

(** df.iloc[r0:r1, c0:c1] keeps min(r1, nrows) - r0 records and min(c1,
    ncols) - c0 columns, and slicing a slice equals a single slice of the
    original with composed bounds (starts add, ends take the minimum). *)
Theorem iloc_compose (f : frame) (r0 r1 c0 c1 r0' r1' c0' c1' : nat) :
  iloc (iloc f r0 r1 c0 c1) r0' r1' c0' c1'
  = iloc f (r0 + r0') (Nat.min r1 (r0 + r1')) (c0 + c0') (Nat.min c1 (c0 + c1'))
  /\ List.length (f_rows (iloc f r0 r1 c0 c1)) = (Nat.min r1 (List.length (f_rows f)) - r0)%nat
  /\ List.length (f_names (iloc f r0 r1 c0 c1)) = (Nat.min c1 (List.length (f_names f)) - c0)%nat.
Proof.
  unfold iloc. cbn [f_index f_names f_kinds f_rows]. split; [|split].
  - rewrite !py_slice_compose, py_slice_map, map_map, py_slice_compose.
    f_equal. apply map_ext. intro r. apply py_slice_compose.
  - rewrite length_map. apply py_slice_length.
  - apply py_slice_length.
Qed.

Lemma combine_fst_snd {X Y : Type} (l : list (X * Y)) :
  combine (map fst l) (map snd l) = l.
Proof. induction l as [|[x y] l IH]; simpl; [reflexivity|]. rewrite IH. reflexivity. Qed.

Lemma filter_filter2 {X : Type} (p q : X -> bool) (l : list X) :
  filter p (filter q l) = filter (fun x => q x && p x) l.
Proof.
  induction l as [|x l IH]; simpl; [reflexivity|].
  destruct (q x); simpl; [destruct (p x); simpl|]; rewrite IH; reflexivity.
Qed.

(** dropna(how=h) is idempotent, and when every record has at least one
    field, dropna(how='any') applied after dropna(how='all') equals
    dropna(how='any') alone. *)
Theorem dropna_compose (h : how) (f : frame) :
  dropna h (dropna h f) = dropna h f
  /\ (Forall (fun r => r <> []) (f_rows f) ->
      dropna HowAny (dropna HowAll f) = dropna HowAny f).
Proof.
  unfold dropna. cbn [f_index f_names f_kinds f_rows]. rewrite !combine_fst_snd.
  split.
  - rewrite filter_filter2.
    rewrite (filter_ext _ (fun p : cell * list cell => keep_row h (snd p))) by (intro p; apply andb_diag).
    reflexivity.
  - intro Hne. rewrite filter_filter2.
    replace (filter (fun p => keep_row HowAll (snd p) && keep_row HowAny (snd p))
               (combine (f_index f) (f_rows f)))
      with (filter (fun p => keep_row HowAny (snd p)) (combine (f_index f) (f_rows f)));
      [reflexivity|].
    apply filter_ext_in. intros [x r] Hin. apply in_combine_r in Hin.
    rewrite Forall_forall in Hne. specialize (Hne r Hin). cbn [snd]. symmetry.
    destruct (keep_row HowAny r) eqn:E; [|apply andb_false_r].
    rewrite andb_true_r. simpl in E |- *.
    destruct r as [|c r]; [contradiction|]. simpl in E |- *.
    apply andb_prop in E as [E _]. rewrite E. reflexivity.
Qed.

End PandasMoreFacts.

Section CorrFacts.
Import Csv Frame Pandas.
Local Open Scope R_scope.

Lemma sumR_map_nonneg {X : Type} (g : X -> R) (l : list X) :
  (forall x, 0 <= g x) -> 0 <= LinRegress.sumR (map g l).
Proof. intro Hg. induction l as [|x l IH]; simpl; [lra|]. specialize (Hg x). lra. Qed.

Lemma sumR_map_ext {X : Type} (g h : X -> R) (l : list X) :
  (forall x, In x l -> g x = h x) -> LinRegress.sumR (map g l) = LinRegress.sumR (map h l).
Proof. intro H. f_equal. apply map_ext_in. exact H. Qed.

Lemma sumR_quadratic {X : Type} (a b : X -> R) (l : list X) (t : R) :
  LinRegress.sumR (map (fun p => (a p * t - b p) * (a p * t - b p)) l)
  = LinRegress.sumR (map (fun p => a p * a p) l) * t * t
    - 2 * LinRegress.sumR (map (fun p => a p * b p) l) * t
    + LinRegress.sumR (map (fun p => b p * b p) l).
Proof. induction l as [|p l IH]; simpl; [ring|]. rewrite IH. ring. Qed.

(** Cauchy-Schwarz for finite sums. *)
Lemma sumR_cauchy_schwarz {X : Type} (a b : X -> R) (l : list X) :
  LinRegress.sumR (map (fun p => a p * b p) l) * LinRegress.sumR (map (fun p => a p * b p) l)
  <= LinRegress.sumR (map (fun p => a p * a p) l) * LinRegress.sumR (map (fun p => b p * b p) l).
Proof.
  set (A := LinRegress.sumR (map (fun p => a p * a p) l)).
  set (B := LinRegress.sumR (map (fun p => b p * b p) l)).
  set (S := LinRegress.sumR (map (fun p => a p * b p) l)).
  assert (Hq : forall t, 0 <= A * t * t - 2 * S * t + B).
  { intro t. unfold A, B, S. rewrite <- sumR_quadratic.
    apply sumR_map_nonneg. intro x. apply Rle_0_sqr. }
  assert (HA : 0 <= A) by (apply sumR_map_nonneg; intro x; apply Rle_0_sqr).
  assert (HB : 0 <= B) by (apply sumR_map_nonneg; intro x; apply Rle_0_sqr).
  destruct (Req_dec A 0) as [HA0|HA0].
  - destruct (Req_dec S 0) as [HS0|HS0].
    + rewrite HS0, HA0. lra.
    + exfalso. specialize (Hq ((B + 1) / (2 * S))). rewrite HA0 in Hq.
      replace (0 * ((B + 1) / (2 * S)) * ((B + 1) / (2 * S)) - 2 * S * ((B + 1) / (2 * S)) + B)
        with (-1) in Hq by (field; exact HS0). lra.
  - specialize (Hq (S / A)).
    replace (A * (S / A) * (S / A) - 2 * S * (S / A) + B) with ((A * B - S * S) / A) in Hq
      by (field; exact HA0).
    assert (HApos : 0 < A) by lra.
    assert (H := Rmult_le_compat_r A _ _ (Rlt_le _ _ HApos) Hq).
    replace ((A * B - S * S) / A * A) with (A * B - S * S) in H by (field; exact HA0).
    lra.
Qed.

Lemma complete_pairs_swap (xs ys : list cell) :
  complete_pairs ys xs = map (fun p => (snd p, fst p)) (complete_pairs xs ys).
Proof.
  revert ys. induction xs as [|x xs IH]; intros [|y ys]; try reflexivity.
  unfold complete_pairs in *. cbn [combine fold_right fst snd].
  rewrite IH. destruct (cell_int x), (cell_int y); reflexivity.
Qed.

Lemma complete_pairs_diag (xs : list cell) :
  Forall (fun p => fst p = snd p) (complete_pairs xs xs).
Proof.
  induction xs as [|x xs IH]; [constructor|].
  unfold complete_pairs in *. cbn [combine fold_right fst snd].
  destruct (cell_int x); [constructor; [reflexivity|]|]; exact IH.
Qed.

Lemma pearson_swap (ps : list (R * R)) :
  pearson (map (fun p => (snd p, fst p)) ps) = pearson ps.
Proof.
  destruct ps as [|p ps']; [reflexivity|].
  change (map (fun p => (snd p, fst p)) (p :: ps'))
    with ((snd p, fst p) :: map (fun p => (snd p, fst p)) ps').
  unfold pearson. cbv beta iota.
  replace ((snd p, fst p) :: map (fun p => (snd p, fst p)) ps')
    with (map (fun p : R * R => (snd p, fst p)) (p :: ps')) by reflexivity.
  generalize (p :: ps'). intro qs. cbv zeta.
  rewrite length_map, !map_map. cbn [fst snd].
  set (mx := LinRegress.sumR (map fst qs) / INR (List.length qs)).
  set (my := LinRegress.sumR (map snd qs) / INR (List.length qs)).
  rewrite (Rmult_comm (LinRegress.sumR (map (fun x => (snd x - my) * (snd x - my)) qs))).
  rewrite (sumR_map_ext (fun x => (snd x - my) * (fst x - mx)) (fun x => (fst x - mx) * (snd x - my)))
    by (intros; ring).
  reflexivity.
Qed.

Lemma pearson_bounded (ps : list (R * R)) (r : R) :
  pearson ps = Some r -> -1 <= r <= 1.
Proof.
  destruct ps as [|p ps']; [discriminate|].
  unfold pearson. cbv beta iota zeta. generalize (p :: ps'). intro qs.
  set (mx := LinRegress.sumR (map fst qs) / INR (List.length qs)).
  set (my := LinRegress.sumR (map snd qs) / INR (List.length qs)).
  set (sxx := LinRegress.sumR (map (fun p => (fst p - mx) * (fst p - mx)) qs)).
  set (syy := LinRegress.sumR (map (fun p => (snd p - my) * (snd p - my)) qs)).
  set (sxy := LinRegress.sumR (map (fun p => (fst p - mx) * (snd p - my)) qs)).
  assert (Hcs : sxy * sxy <= sxx * syy)
    by exact (sumR_cauchy_schwarz (fun p => fst p - mx) (fun p => snd p - my) qs).
  assert (Hxx : 0 <= sxx) by (apply sumR_map_nonneg; intro x; apply Rle_0_sqr).
  assert (Hyy : 0 <= syy) by (apply sumR_map_nonneg; intro x; apply Rle_0_sqr).
  destruct (Req_EM_T (sqrt (sxx * syy)) 0) as [_|Hd]; [discriminate|].
  intro E. injection E as <-.
  set (d := sqrt (sxx * syy)) in *.
  assert (Hd0 : 0 <= d) by apply sqrt_pos.
  assert (Hdp : 0 < d) by lra.
  assert (Hdd : d * d = sxx * syy) by (apply sqrt_sqrt; nra).
  assert (Hb : - d <= sxy <= d) by nra.
  assert (Hinv : 0 < / d) by (apply Rinv_0_lt_compat; exact Hdp).
  unfold Rdiv. split.
  - replace (-1) with (- d * / d) by (field; lra). apply Rmult_le_compat_r; lra.
  - replace 1 with (d * / d) by (field; lra). apply Rmult_le_compat_r; lra.
Qed.

Lemma pearson_diag (ps : list (R * R)) :
  Forall (fun p => fst p = snd p) ps -> pearson ps = None \/ pearson ps = Some 1.
Proof.
  intro Hd. destruct ps as [|p ps']; [left; reflexivity|].
  unfold pearson. cbv beta iota zeta. generalize dependent (p :: ps'). intros qs Hd.
  rewrite Forall_forall in Hd.
  assert (Hm : map fst qs = map snd qs) by (apply map_ext_in; exact Hd).
  rewrite Hm.
  set (my := LinRegress.sumR (map snd qs) / INR (List.length qs)).
  rewrite (sumR_map_ext (fun p => (fst p - my) * (fst p - my)) (fun p => (snd p - my) * (snd p - my)))
    by (intros x Hx; rewrite (Hd x Hx); reflexivity).
  rewrite (sumR_map_ext (fun p => (fst p - my) * (snd p - my)) (fun p => (snd p - my) * (snd p - my)))
    by (intros x Hx; rewrite (Hd x Hx); reflexivity).
  set (s := LinRegress.sumR (map (fun p => (snd p - my) * (snd p - my)) qs)).
  assert (Hs : 0 <= s) by (apply sumR_map_nonneg; intro x; apply Rle_0_sqr).
  rewrite sqrt_square by exact Hs.
  destruct (Req_EM_T s 0) as [|Hs0]; [left; reflexivity|].
  right. f_equal. field. exact Hs0.
Qed.

(** Each entry of df.corr(method='pearson') is symmetric in its two columns,
    lies in [-1, 1] when it is not NaN, and the correlation of a column with
    itself is 1 or NaN. *)
Theorem corr_pair_symmetric_bounded (xs ys : list cell) :
  corr_pair xs ys = corr_pair ys xs
  /\ (forall r, corr_pair xs ys = Some r -> -1 <= r <= 1)
  /\ (corr_pair xs xs = None \/ corr_pair xs xs = Some 1).
Proof.
  unfold corr_pair. split; [|split].
  - rewrite complete_pairs_swap, pearson_swap. reflexivity.
  - apply pearson_bounded.
  - apply pearson_diag, complete_pairs_diag.
Qed.

End CorrFacts.

Section GroupKeyFacts.
Import Csv Frame Pandas PandasMore.
Local Open Scope nat_scope.

Lemma cell_eqb_iff (a b : cell) : cell_eqb a b = true <-> a = b.
Proof.
  destruct a, b; simpl; try (split; [discriminate|congruence]).
  - destruct (Z.eqb_spec z z0); subst; split; congruence.
  - destruct b, b0; simpl; split; congruence.
  - destruct (Z.eqb_spec y y0), (Z.eqb_spec m m0), (Z.eqb_spec d d0); subst; simpl;
      split; congruence.
  - destruct (String.eqb_spec s s0); subst; split; congruence.
  - split; reflexivity.
Qed.

Lemma date_le_iff (y1 m1 d1 y2 m2 d2 : Z) :
  date_le y1 m1 d1 y2 m2 d2 = true
  <-> (y1 < y2 \/ y1 = y2 /\ (m1 < m2 \/ m1 = m2 /\ d1 <= d2))%Z.
Proof.
  unfold date_le. rewrite ?orb_true_iff, ?andb_true_iff, ?orb_true_iff, ?andb_true_iff,
    ?Z.ltb_lt, ?Z.eqb_eq, ?Z.leb_le. reflexivity.
Qed.

Lemma string_compare_trans (s t u : string) :
  String.compare s t <> Gt -> String.compare t u <> Gt -> String.compare s u <> Gt.
Proof.
  revert t u. induction s as [|a s IH]; intros t u H1 H2.
  - destruct u; simpl; discriminate.
  - destruct t as [|b t]; [simpl in H1; contradiction|].
    destruct u as [|c u]; [simpl in H2; contradiction|].
    simpl in *. unfold Ascii.compare in *.
    destruct (N.compare_spec (Ascii.N_of_ascii a) (Ascii.N_of_ascii b)),
      (N.compare_spec (Ascii.N_of_ascii b) (Ascii.N_of_ascii c)),
      (N.compare_spec (Ascii.N_of_ascii a) (Ascii.N_of_ascii c));
      try lia; try discriminate; try contradiction; eauto.
Qed.

Lemma string_leb_trans (s t u : string) :
  String.leb s t = true -> String.leb t u = true -> String.leb s u = true.
Proof.
  unfold String.leb. intros H1 H2.
  destruct (String.compare s u) eqn:E; try reflexivity. exfalso.
  apply (string_compare_trans s t u); [| |exact E].
  - destruct (String.compare s t); discriminate.
  - destruct (String.compare t u); discriminate.
Qed.

Lemma cell_leb_total (a b : cell) : cell_leb a b = true \/ cell_leb b a = true.
Proof.
  destruct a, b; simpl; auto.
  - rewrite !Z.leb_le. lia.
  - destruct b, b0; simpl; auto.
  - rewrite !date_le_iff. lia.
  - apply String.leb_total.
Qed.

Lemma key_le_trans (a b c : cell) : key_le a b -> key_le b c -> key_le a c.
Proof.
  unfold key_le. intros [K1 L1] [K2 L2]. split; [congruence|].
  destruct a, b; try discriminate; destruct c; try discriminate; simpl in *.
  - rewrite Z.leb_le in *. lia.
  - destruct b, b0, b1; simpl in *; congruence.
  - rewrite date_le_iff in *. lia.
  - eapply string_leb_trans; eassumption.
  - reflexivity.
Qed.

Lemma key_le_antisym (a b : cell) : key_le a b -> key_le b a -> a = b.
Proof.
  unfold key_le. intros [K1 L1] [K2 L2].
  destruct a, b; try discriminate; simpl in *.
  - rewrite Z.leb_le in *. f_equal. lia.
  - destruct b, b0; simpl in *; congruence.
  - rewrite date_le_iff in *. assert (y = y0 /\ m = m0 /\ d = d0) as [-> [-> ->]] by lia.
    reflexivity.
  - f_equal. apply String.leb_antisym; assumption.
  - reflexivity.
Qed.

Lemma in_insert_key (k x : cell) (ks : list cell) :
  In x (insert_key k ks) <-> x = k \/ In x ks.
Proof.
  induction ks as [|k' ks IH]; simpl; [intuition congruence|].
  destruct (cell_eqb k k') eqn:E.
  - apply cell_eqb_iff in E. subst. simpl. intuition congruence.
  - destruct (cell_leb k k'); simpl; [intuition congruence|]. rewrite IH. intuition congruence.
Qed.

Lemma insert_key_sorted (k : cell) (ks : list cell) :
  Sorted (fun a b => cell_leb a b = true) ks ->
  Sorted (fun a b => cell_leb a b = true) (insert_key k ks).
Proof.
  induction ks as [|k' ks IH]; intro Hs; simpl; [repeat constructor|].
  destruct (cell_eqb k k') eqn:E; [exact Hs|].
  destruct (cell_leb k k') eqn:L; [constructor; [exact Hs|constructor; exact L]|].
  apply Sorted_inv in Hs as [Hs Hh]. constructor; [exact (IH Hs)|].
  assert (Hk : cell_leb k' k = true)
    by (destruct (cell_leb_total k k'); [congruence|assumption]).
  destruct ks as [|k'' ks]; simpl; [constructor; exact Hk|].
  destruct (cell_eqb k k''); [exact Hh|].
  destruct (cell_leb k k''); constructor; [exact Hk|]. inversion Hh; assumption.
Qed.

Lemma insert_key_key_sorted (k : cell) (ks : list cell) :
  (forall x, In x ks -> cell_kind x = cell_kind k) ->
  Sorted key_le ks -> Sorted key_le (insert_key k ks).
Proof.
  induction ks as [|k' ks IH]; intros Hk Hs; simpl; [repeat constructor|].
  destruct (cell_eqb k k') eqn:E; [exact Hs|].
  assert (Kk' : cell_kind k' = cell_kind k) by (apply Hk; left; reflexivity).
  destruct (cell_leb k k') eqn:L; [constructor; [exact Hs|constructor; split; congruence]|].
  apply Sorted_inv in Hs as [Hs Hh].
  constructor; [apply IH; [intros x Hx; apply Hk; right; exact Hx|exact Hs]|].
  assert (Hkk : key_le k' k).
  { split; [exact Kk'|]. destruct (cell_leb_total k k'); [congruence|assumption]. }
  destruct ks as [|k'' ks]; simpl; [constructor; exact Hkk|].
  destruct (cell_eqb k k''); [exact Hh|].
  destruct (cell_leb k k''); constructor; [exact Hkk|]. inversion Hh; assumption.
Qed.

Lemma insert_key_nodup (k : cell) (ks : list cell) :
  (forall x, In x ks -> cell_kind x = cell_kind k) ->
  Sorted key_le ks -> NoDup ks -> NoDup (insert_key k ks).
Proof.
  induction ks as [|k' ks IH]; intros Hk Hs Hn; simpl; [repeat constructor; auto|].
  destruct (cell_eqb k k') eqn:E; [exact Hn|].
  assert (Kk' : cell_kind k' = cell_kind k) by (apply Hk; left; reflexivity).
  assert (Hne : k <> k') by (intro H; apply cell_eqb_iff in H; congruence).
  destruct (cell_leb k k') eqn:L.
  - constructor; [|exact Hn]. intros [H|H]; [congruence|].
    apply Sorted_StronglySorted in Hs; [|intros ? ? ?; apply key_le_trans].
    apply StronglySorted_inv in Hs as [_ Hall]. rewrite Forall_forall in Hall.
    apply Hne, key_le_antisym; [split; [congruence|exact L]|].
    apply Hall. exact H.
  - apply NoDup_cons_iff in Hn as [Hn1 Hn2]. apply Sorted_inv in Hs as [Hs _].
    constructor.
    + rewrite in_insert_key. intros [H|H]; [congruence|contradiction].
    + apply IH; [intros x Hx; apply Hk; right; exact Hx|exact Hs|exact Hn2].
Qed.

Lemma group_keys_key_sorted (cs : list cell) :
  (forall a b, In a cs -> In b cs -> a <> CNA -> b <> CNA -> cell_kind a = cell_kind b) ->
  Sorted key_le (group_keys cs) /\ NoDup (group_keys cs).
Proof.
  unfold group_keys. intro Hk.
  assert (Hk' : forall a b, In a (filter (fun c => negb (is_missing c)) cs) ->
                            In b (filter (fun c => negb (is_missing c)) cs) ->
                            cell_kind a = cell_kind b).
  { intros a b Ha Hb. apply filter_In in Ha as [Ha Ma], Hb as [Hb Mb].
    apply Hk; [exact Ha|exact Hb| |]; intro E; subst; discriminate. }
  clear Hk. induction (filter (fun c => negb (is_missing c)) cs) as [|c l IH];
    simpl; [split; constructor|].
  destruct IH as [IHs IHn]; [intros a b Ha Hb; apply Hk'; right; assumption|].
  assert (Hin : forall x, In x (fold_right insert_key [] l) -> cell_kind x = cell_kind c).
  { intros x Hx. apply Hk'; [right|left; reflexivity].
    clear -Hx. induction l as [|y l IH]; simpl in *; [contradiction|].
    apply in_insert_key in Hx as [->|Hx]; [left; reflexivity|right; auto]. }
  split; [apply insert_key_key_sorted|apply insert_key_nodup]; assumption.
Qed.

(** The group keys of df.groupby(col) are exactly the non-missing values of
    the key column, each adjacent pair in ascending order, and they are free
    of duplicates when all non-missing keys have the same dtype. *)
Theorem group_keys_sorted_distinct (cs : list cell) :
  (forall k, In k (group_keys cs) <-> In k cs /\ k <> CNA)
  /\ Sorted (fun a b => cell_leb a b = true) (group_keys cs)
  /\ ((forall a b, In a cs -> In b cs -> a <> CNA -> b <> CNA -> cell_kind a = cell_kind b) ->
      NoDup (group_keys cs)).
Proof.
  split; [|split].
  - intro k. unfold group_keys.
    assert (H : In k (fold_right insert_key [] (filter (fun c => negb (is_missing c)) cs))
                <-> In k (filter (fun c => negb (is_missing c)) cs)).
    { induction (filter (fun c => negb (is_missing c)) cs) as [|c l IH]; simpl; [tauto|].
      rewrite in_insert_key, IH. split; intros [H|H]; auto. }
    rewrite H, filter_In. destruct k; simpl; split; intros [H1 H2]; split; auto; congruence.
  - unfold group_keys. induction (filter (fun c => negb (is_missing c)) cs) as [|c l IH];
      simpl; [constructor|]. apply insert_key_sorted. exact IH.
  - intro Hk. apply (group_keys_key_sorted cs Hk).
Qed.

End GroupKeyFacts.

Section LinRegressMoreFacts.
Import LinRegress.
Local Open Scope R_scope.

Lemma all_identical_iff (xs : list R) :
  all_identical xs = true <-> (forall x, In x xs -> x = hd 0 xs).
Proof.
  destruct xs as [|x0 xs]; [simpl; split; [intros _ x []|reflexivity]|].
  unfold all_identical. cbn [hd]. rewrite forallb_forall. split.
  - intros H x Hx. specialize (H x Hx). destruct (Req_EM_T x x0); [assumption|discriminate].
  - intros H x Hx. destruct (Req_EM_T x x0) as [|n]; [reflexivity|]. exfalso. apply n, H, Hx.
Qed.

(** On points of any line y = s x + c with at least two distinct x values,
    linregress returns slope s and intercept c exactly, and an r-value of 1,
    -1 or 0 according to the sign of s. *)
Theorem linregress_any_line (xs : list R) (s c a b : R)
  (Ha : In a xs) (Hb : In b xs) (Hab : a <> b) :
  exists r, linregress xs (map (fun x => s * x + c) xs) = LinOk s c r
  /\ (0 < s -> r = 1) /\ (s < 0 -> r = -1) /\ (s = 0 -> r = 0).
Proof.
  assert (Hn2 : (2 <= List.length xs)%nat).
  { destruct xs as [|x0 [|x1 xs']]; simpl in *; [contradiction| |lia].
    destruct Ha as [Ha|[]]; destruct Hb as [Hb|[]]; congruence. }
  assert (Hid : all_identical xs = false).
  { apply not_true_iff_false. rewrite all_identical_iff. intro H.
    apply Hab. rewrite (H a Ha), (H b Hb). reflexivity. }
  set (N := INR (List.length xs)).
  assert (HN : 0 < N) by (apply lt_0_INR; lia).
  set (m := meanR xs).
  set (SS := sumR (map (fun x => (x - m) * (x - m)) xs)).
  assert (HmY : meanR (map (fun x => s * x + c) xs) = s * m + c).
  { unfold m, meanR. rewrite length_map, sumR_map_affine. fold N. field. lra. }
  assert (Hxx : cov_bias xs xs = SS / N).
  { unfold cov_bias. fold m. rewrite combine_diag, map_map. reflexivity. }
  assert (Hxy : cov_bias xs (map (fun x => s * x + c) xs) = s * SS / N).
  { unfold cov_bias. fold m. rewrite HmY, combine_map_r, map_map. simpl.
    rewrite (map_ext _ (fun x => s * ((x - m) * (x - m)))).
    - rewrite sumR_map_scale. fold SS. fold N. reflexivity.
    - intro x. ring. }
  assert (Hyy : cov_bias (map (fun x => s * x + c) xs) (map (fun x => s * x + c) xs)
                = (s * s) * SS / N).
  { unfold cov_bias. rewrite HmY, combine_diag, !map_map, length_map. simpl.
    rewrite (map_ext _ (fun x => (s * s) * ((x - m) * (x - m)))).
    - rewrite sumR_map_scale. fold SS. fold N. reflexivity.
    - intro x. ring. }
  assert (HS : 0 < SS).
  { assert (Hsq : forall y, 0 <= (y - m) * (y - m)) by (intro y; apply Rle_0_sqr).
    pose proof (sumR_term_le _ xs a Hsq Ha) as H1.
    pose proof (sumR_term_le _ xs b Hsq Hb) as H2.
    fold SS in H1, H2.
    destruct (Rle_lt_dec SS 0) as [Hle|]; [|assumption].
    exfalso. assert (a = m) by nra. assert (b = m) by nra. congruence. }
  unfold linregress.
  rewrite length_map, Hid, Nat.eqb_refl.
  replace (List.length xs =? 0)%nat with false by (symmetry; apply Nat.eqb_neq; lia).
  replace (List.length xs =? 1)%nat with false by (symmetry; apply Nat.eqb_neq; lia).
  cbv zeta. simpl (_ || _). simpl negb. simpl (false && _).
  rewrite Hxx, Hxy, Hyy, HmY. fold m.
  assert (HSN : 0 < SS / N) by (apply Rdiv_lt_0_compat; assumption).
  destruct (Req_EM_T (SS / N) 0) as [E|_]; [lra|].
  replace (s * SS / N / (SS / N)) with s by (field; lra).
  replace (s * m + c - s * m) with c by ring.
  eexists. split; [reflexivity|].
  destruct (Req_EM_T (s * s * SS / N) 0) as [E|Hne].
  { split; [|split]; intro Hs; try reflexivity; exfalso;
      assert (0 < s * s) by nra;
      assert (0 < s * s * SS / N) by (apply Rdiv_lt_0_compat; nra); lra. }
  assert (Hs0 : s <> 0) by (intro E; apply Hne; subst; unfold Rdiv; ring).
  replace (SS / N * (s * s * SS / N)) with ((Rabs s * SS / N) * (Rabs s * SS / N))
    by (assert (Habs : Rabs s * Rabs s = s * s)
          by (rewrite <- Rabs_mult; apply Rabs_right; nra);
        rewrite <- Habs; field; lra).
  assert (HA : 0 < Rabs s) by (apply Rabs_pos_lt; exact Hs0).
  rewrite sqrt_square by (apply Rlt_le, Rdiv_lt_0_compat; nra).
  split; [|split]; intro Hs.
  - rewrite Rabs_right by lra. replace (s * SS / N / (s * SS / N)) with 1 by (field; nra).
    destruct (Rlt_dec 1 1); [lra|]. destruct (Rlt_dec 1 (-1)); [lra|reflexivity].
  - rewrite Rabs_left by lra. replace (s * SS / N / (- s * SS / N)) with (-1) by (field; nra).
    destruct (Rlt_dec 1 (-1)); [lra|]. destruct (Rlt_dec (-1) (-1)); [lra|reflexivity].
  - contradiction.
Qed.

Lemma linregress_any_line_witness :
  exists r, linregress [0; 1; 2; 3] (map (fun x => (-1/2) * x + 3) [0; 1; 2; 3])
            = LinOk (-1/2) 3 r
  /\ (0 < -1/2 -> r = 1) /\ (-1/2 < 0 -> r = -1) /\ (-1/2 = 0 -> r = 0).
Proof.
  apply (linregress_any_line [0; 1; 2; 3] (-1/2) 3 0 1).
  - simpl. left. reflexivity.
  - simpl. right. left. reflexivity.
  - intro H. apply R1_neq_R0. symmetry. exact H.
Defined.

End LinRegressMoreFacts.

Section DetFacts.
Import SciPy.
Local Open Scope R_scope.

(** linalg.det, computed by LU factorisation with partial pivoting, returns
    a*d - b*c for every 2x2 matrix [[a, b], [c, d]], whichever row is the
    pivot and also when the first column is zero. *)
Theorem det_2x2 (a b c d : R) :
  det [[a; b]; [c; d]] = Some (a * d - b * c).
Proof.
  unfold det. simpl forallb. cbv iota. f_equal.
  simpl. destruct (Rlt_dec (Rabs a) (Rabs c)) as [Hlt|Hge]; simpl.
  - destruct (Req_EM_T c 0) as [Hc|Hc].
    + exfalso. rewrite Hc, Rabs_R0 in Hlt. pose proof (Rabs_pos a). lra.
    + destruct (Rlt_dec (Rabs (b - a / c * d)) (Rabs (b - a / c * d))); simpl; field; exact Hc.
  - destruct (Req_EM_T a 0) as [Ha|Ha].
    + assert (c = 0).
      { rewrite Ha, Rabs_R0 in Hge. apply Rnot_lt_le in Hge.
        pose proof (Rabs_pos c). destruct (Rcase_abs c); [rewrite Rabs_left in Hge by lra|rewrite Rabs_right in Hge by lra]; lra. }
      subst. simpl. ring.
    + simpl. field. exact Ha.
Qed.

End DetFacts.

Section FftFreqFacts.
Import SciPy.
Local Open Scope R_scope.

Ltac half_facts n :=
  pose proof (Nat.div_mod n 2 ltac:(lia)); pose proof (Nat.mod_upper_bound n 2 ltac:(lia));
  pose proof (Nat.div_mod (n - 1) 2 ltac:(lia));
  pose proof (Nat.mod_upper_bound (n - 1) 2 ltac:(lia)).

(** fft.fftfreq(n, d) raises ZeroDivisionError exactly when n = 0 or d = 0;
    otherwise it returns n values, the i-th being i / (n d) for i <= (n - 1)
    // 2 and (i - n) / (n d) after that, and f[n - i] = -f[i] for 0 < i < n
    with 2 i != n. *)
Theorem fftfreq_values (n : nat) (d : R) :
  (fftfreq n d = None <-> n = O \/ d = 0)
  /\ forall fs, fftfreq n d = Some fs ->
     List.length fs = n
     /\ (forall i, (i < n)%nat ->
           nth i fs 0 = IZR (if (i <=? (n - 1) / 2)%nat then Z.of_nat i
                             else (Z.of_nat i - Z.of_nat n)%Z) / (INR n * d))
     /\ (forall i, (0 < i < n)%nat -> (2 * i <> n)%nat -> nth (n - i) fs 0 = - nth i fs 0).
Proof.
  assert (Hz : INR n * d = 0 <-> n = O \/ d = 0).
  { split.
    - intro H. apply Rmult_integral in H as [H|H]; [left|right; exact H].
      apply INR_eq. exact H.
    - intros [ -> | -> ]; simpl; ring. }
  unfold fftfreq. destruct (Req_EM_T (INR n * d) 0) as [E|E].
  { split; [split; [intros _; apply Hz, E|reflexivity]|discriminate]. }
  split; [split; [discriminate|intro H; apply Hz in H; contradiction]|].
  assert (Hn : n <> O) by (intro H; apply E, Hz; left; exact H).
  intros fs Hfs. injection Hfs as <-.
  set (N := ((n - 1) / 2 + 1)%nat).
  assert (HN : (N + n / 2 = n)%nat) by (unfold N; half_facts n; lia).
  assert (Hlen : List.length (map Z.of_nat (seq 0 N)
                   ++ map (fun i => (Z.of_nat i - Z.of_nat (n / 2))%Z) (seq 0 (n / 2))) = n)
    by (rewrite length_app, !length_map, !length_seq; exact HN).
  assert (Hval : forall i, (i < n)%nat ->
    nth i (map (fun k => IZR k * (1 / (INR n * d)))
             (map Z.of_nat (seq 0 N)
              ++ map (fun i => (Z.of_nat i - Z.of_nat (n / 2))%Z) (seq 0 (n / 2)))) 0
    = IZR (if (i <=? (n - 1) / 2)%nat then Z.of_nat i else (Z.of_nat i - Z.of_nat n)%Z)
      / (INR n * d)).
  { intros i Hi. rewrite (nth_map_lt _ _ i 0 0%Z) by (rewrite Hlen; exact Hi).
    unfold Rdiv. rewrite Rmult_1_l. f_equal. f_equal.
    destruct (Nat.leb_spec i ((n - 1) / 2)) as [Hle|Hgt].
    - rewrite app_nth1 by (rewrite length_map, length_seq; unfold N; lia).
      rewrite (nth_map_lt _ _ i 0%Z 0%nat) by (rewrite length_seq; unfold N; lia).
      rewrite seq_nth by (unfold N; lia). reflexivity.
    - rewrite app_nth2 by (rewrite length_map, length_seq; unfold N; lia).
      rewrite length_map, length_seq.
      rewrite (nth_map_lt _ _ (i - N) 0%Z 0%nat) by (rewrite length_seq; lia).
      rewrite seq_nth by lia. lia. }
  split; [rewrite length_map; exact Hlen|split; [exact Hval|]].
  intros i Hi H2. rewrite !Hval by lia.
  assert (Hc : (if (n - i <=? (n - 1) / 2)%nat then Z.of_nat (n - i)
                else (Z.of_nat (n - i) - Z.of_nat n)%Z)
               = (- (if (i <=? (n - 1) / 2)%nat then Z.of_nat i
                     else (Z.of_nat i - Z.of_nat n)))%Z).
  { half_facts n.
    destruct (Nat.leb_spec i ((n - 1) / 2)), (Nat.leb_spec (n - i) ((n - 1) / 2)); lia. }
  rewrite Hc, opp_IZR. unfold Rdiv. ring.
Qed.

End FftFreqFacts.

Section DetrendFacts.
Import LinRegress SciPy.
Local Open Scope R_scope.

Lemma sumR_lin {X : Type} (u v : X -> R) (a b c : R) (l : list X) :
  sumR (map (fun p => a * u p + b * v p + c) l)
  = a * sumR (map u l) + b * sumR (map v l) + c * INR (List.length l).
Proof.
  induction l as [|p l IH]; simpl; [ring|]. rewrite IH.
  destruct (List.length l); simpl; ring.
Qed.

Lemma map_fst_combine {A B : Type} (l1 : list A) (l2 : list B) :
  List.length l1 = List.length l2 -> map fst (combine l1 l2) = l1.
Proof.
  revert l2. induction l1 as [|x l1 IH]; intros [|y l2] H; simpl in *; try lia; [reflexivity|].
  rewrite IH by lia. reflexivity.
Qed.

Lemma map_snd_combine {A B : Type} (l1 : list A) (l2 : list B) :
  List.length l1 = List.length l2 -> map snd (combine l1 l2) = l2.
Proof.
  revert l2. induction l1 as [|x l1 IH]; intros [|y l2] H; simpl in *; try lia; [reflexivity|].
  rewrite IH by lia. reflexivity.
Qed.

Lemma combine_map_pair {A B C : Type} (ts : list A) (xs : list B) (h : A * B -> C) :
  List.length ts = List.length xs ->
  combine ts (map h (combine ts xs)) = map (fun p => (fst p, h p)) (combine ts xs).
Proof.
  revert xs. induction ts as [|t ts IH]; intros [|x xs] H; simpl in *; try lia; [reflexivity|].
  rewrite IH by lia. reflexivity.
Qed.

Lemma sumR_fst_combine {A : Type} (g : R -> R) (ts : list R) (xs : list A) :
  List.length ts = List.length xs ->
  sumR (map (fun p => g (fst p)) (combine ts xs)) = sumR (map g ts).
Proof.
  intro H. rewrite <- (map_map fst g), map_fst_combine by exact H. reflexivity.
Qed.

Lemma sumR_snd_combine {A : Type} (g : R -> R) (ts : list A) (xs : list R) :
  List.length ts = List.length xs ->
  sumR (map (fun p => g (snd p)) (combine ts xs)) = sumR (map g xs).
Proof.
  intro H. rewrite <- (map_map snd g), map_snd_combine by exact H. reflexivity.
Qed.

Lemma sumR_id (l : list R) : sumR (map (fun x => x) l) = sumR l.
Proof. rewrite map_id. reflexivity. Qed.

Lemma lstsq_resid_facts (ts xs : list R)
  (Hl : List.length ts = List.length xs) (Hn : List.length ts <> O)
  (Hs : sumR (map (fun t => (t - meanR ts) * (t - meanR ts)) ts) <> 0) :
  List.length (lstsq_line_resid ts xs) = List.length ts
  /\ sumR (lstsq_line_resid ts xs) = 0
  /\ sumR (map (fun p => (fst p - meanR ts) * snd p) (combine ts (lstsq_line_resid ts xs))) = 0.
Proof.
  assert (HN : INR (List.length ts) <> 0) by (apply not_0_INR; exact Hn).
  assert (Hc : List.length (combine ts xs) = List.length ts)
    by (rewrite length_combine, Hl; apply Nat.min_id).
  unfold lstsq_line_resid.
  set (mt := meanR ts). set (mx := meanR xs).
  set (stt := sumR (map (fun t => (t - mt) * (t - mt)) ts)).
  set (stx := sumR (map (fun p => (fst p - mt) * (snd p - mx)) (combine ts xs))).
  split; [|split].
  - rewrite length_map. exact Hc.
  - rewrite (map_ext _ (fun p => 1 * snd p + (- (stx / stt)) * fst p + (- (mx - stx / stt * mt))))
      by (intro p; ring).
    rewrite sumR_lin, Hc.
    rewrite (map_snd_combine ts xs Hl), (map_fst_combine ts xs Hl).
    unfold mx, mt, meanR. rewrite <- Hl. field. split; [exact HN|exact Hs].
  - rewrite combine_map_pair by exact Hl. rewrite map_map. cbn [fst snd].
    rewrite (map_ext _ (fun p => 1 * ((fst p - mt) * (snd p - mx))
                                 + (- (stx / stt)) * ((fst p - mt) * (fst p - mt)) + 0))
      by (intro p; ring).
    rewrite sumR_lin. fold stx.
    rewrite (sumR_fst_combine (fun t => (t - mt) * (t - mt)) ts xs Hl). fold stt.
    field. exact Hs.
Qed.

Lemma lstsq_resid_idem (ts xs : list R)
  (Hl : List.length ts = List.length xs) (Hn : List.length ts <> O)
  (Hs : sumR (map (fun t => (t - meanR ts) * (t - meanR ts)) ts) <> 0) :
  lstsq_line_resid ts (lstsq_line_resid ts xs) = lstsq_line_resid ts xs.
Proof.
  destruct (lstsq_resid_facts ts xs Hl Hn Hs) as [L [S0 O0]].
  set (r := lstsq_line_resid ts xs) in *. clearbody r.
  assert (HN : INR (List.length ts) <> 0) by (apply not_0_INR; exact Hn).
  assert (Hm : meanR r = 0) by (unfold meanR; rewrite S0, L; field; exact HN).
  unfold lstsq_line_resid. rewrite Hm.
  rewrite (map_ext (fun p => (fst p - meanR ts) * (snd p - 0))
                   (fun p => (fst p - meanR ts) * snd p)) by (intro p; ring).
  rewrite O0.
  rewrite (map_ext _ snd) by (intro p; unfold Rdiv; ring).
  apply map_snd_combine. symmetry. exact L.
Qed.

Lemma lstsq_resid_line (ts : list R) (al be : R)
  (Hn : List.length ts <> O)
  (Hs : sumR (map (fun t => (t - meanR ts) * (t - meanR ts)) ts) <> 0) :
  lstsq_line_resid ts (map (fun t => al * t + be) ts) = map (fun _ => 0) ts.
Proof.
  assert (HN : INR (List.length ts) <> 0) by (apply not_0_INR; exact Hn).
  unfold lstsq_line_resid.
  assert (Hm : meanR (map (fun t => al * t + be) ts) = al * meanR ts + be).
  { unfold meanR. rewrite length_map, sumR_map_affine. field. exact HN. }
  rewrite Hm, combine_map_r, !map_map. cbn [fst snd].
  set (mt := meanR ts) in *.
  set (stt := sumR (map (fun t => (t - mt) * (t - mt)) ts)) in *.
  rewrite (map_ext (fun x => (x - mt) * (al * x + be - (al * mt + be)))
                   (fun x => al * ((x - mt) * (x - mt)))) by (intro x; ring).
  rewrite sumR_map_scale. fold stt.
  apply map_ext. intro x. field. exact Hs.
Qed.

Lemma detrend_grid_spread (n : nat) :
  (2 <= n)%nat ->
  let ts := map (fun i => INR (S i) / INR n) (seq 0 n) in
  sumR (map (fun t => (t - meanR ts) * (t - meanR ts)) ts) <> 0.
Proof.
  intros H2 ts.
  assert (HN : 0 < INR n) by (apply lt_0_INR; lia).
  assert (H0 : In (INR 1 / INR n) ts).
  { apply in_map_iff. exists O. split; [reflexivity|]. apply in_seq. lia. }
  assert (H1 : In (INR 2 / INR n) ts).
  { apply in_map_iff. exists 1%nat. split; [reflexivity|]. apply in_seq. lia. }
  set (m := meanR ts).
  assert (Hsq : forall y, 0 <= (y - m) * (y - m)) by (intro y; apply Rle_0_sqr).
  pose proof (sumR_term_le _ ts _ Hsq H0) as A0.
  pose proof (sumR_term_le _ ts _ Hsq H1) as A1.
  intro E. rewrite E in A0, A1.
  assert (INR 1 / INR n = m) by nra. assert (INR 2 / INR n = m) by nra.
  assert (E2 : INR 1 / INR n = INR 2 / INR n) by congruence.
  simpl in E2. apply (f_equal (fun z => z * INR n)) in E2.
  unfold Rdiv in E2. rewrite !Rmult_assoc, Rinv_l in E2 by lra. lra.
Qed.

Lemma sumR_zeros {X : Type} (l : list X) : sumR (map (fun _ => 0) l) = 0.
Proof. induction l as [|x l IH]; simpl; [reflexivity|]. rewrite IH. ring. Qed.

(** signal.detrend raises ValueError exactly on an empty signal; otherwise
    it keeps the length of the signal, its output sums to zero (so its mean
    is 0), and detrending a detrended signal changes nothing. *)
Theorem detrend_props (xs : list R) :
  (detrend xs = None <-> xs = [])
  /\ forall ys, detrend xs = Some ys ->
     List.length ys = List.length xs /\ sumR ys = 0 /\ detrend ys = Some ys.
Proof.
  destruct xs as [|x0 xs0]; [split; [split; reflexivity|discriminate]|].
  set (xs := x0 :: xs0).
  assert (Hne : (List.length xs =? 0)%nat = false) by reflexivity.
  split; [split; [unfold detrend; rewrite Hne; destruct (_ =? 1)%nat; discriminate
                 |discriminate]|].
  intros ys Hys.
  destruct (Nat.eqb_spec (List.length xs) 1) as [H1|H1].
  - assert (D : ys = map (fun _ => 0) xs).
    { unfold detrend in Hys. rewrite Hne, H1 in Hys. cbn in Hys.
      injection Hys as <-. reflexivity. }
    subst ys. rewrite length_map. split; [reflexivity|split; [apply sumR_zeros|]].
    unfold detrend. rewrite length_map, H1. cbn. rewrite map_map. reflexivity.
  - set (n := List.length xs) in *.
    assert (Hgt : (2 <= n)%nat) by (unfold n, xs in *; simpl in *; lia).
    set (ts := map (fun i => INR (S i) / INR n) (seq 0 n)).
    assert (Hl : List.length ts = List.length xs)
      by (unfold ts; rewrite length_map, length_seq; reflexivity).
    assert (Hn : List.length ts <> O) by lia.
    assert (Hs := detrend_grid_spread n ltac:(lia)). fold ts in Hs.
    assert (D : ys = lstsq_line_resid ts xs).
    { unfold detrend in Hys. fold n in Hys. rewrite Hne in Hys.
      replace (n =? 1)%nat with false in Hys by (symmetry; apply Nat.eqb_neq; exact H1).
      injection Hys as <-. reflexivity. }
    destruct (lstsq_resid_facts ts xs Hl Hn Hs) as [L [S0 _]].
    rewrite D, L. split; [exact Hl|split; [exact S0|]].
    unfold detrend. rewrite L, Hl. fold n.
    replace (n =? 0)%nat with false by (symmetry; apply Nat.eqb_neq; lia).
    replace (n =? 1)%nat with false by (symmetry; apply Nat.eqb_neq; exact H1).
    fold ts. f_equal. apply lstsq_resid_idem; assumption.
Qed.

(** signal.detrend maps every straight line a * i + b sampled at
    i = 0, ..., n (at least one sample) to all zeros. *)
Theorem detrend_line (n : nat) (a b : R) :
  detrend (map (fun i => a * INR i + b) (seq 0 (S n))) = Some (repeat 0 (S n)).
Proof.
  assert (Hz : forall l : list nat, map (fun _ => 0) l = repeat 0 (List.length l)).
  { induction l as [|k l IH]; simpl; [reflexivity|]. rewrite IH. reflexivity. }
  unfold detrend. rewrite length_map, length_seq. cbn [Nat.eqb].
  destruct (Nat.eqb_spec n 0) as [->|Hgt].
  - reflexivity.
  - f_equal. set (N := S n).
    set (ts := map (fun i => INR (S i) / INR N) (seq 0 N)).
    assert (HN : INR N <> 0) by (apply not_0_INR; unfold N; lia).
    assert (E : map (fun i => a * INR i + b) (seq 0 N)
                = map (fun t => (a * INR N) * t + (b - a)) ts).
    { unfold ts. rewrite map_map. apply map_ext. intro i. rewrite S_INR. field. exact HN. }
    rewrite E. rewrite lstsq_resid_line.
    + unfold ts. rewrite map_map, Hz, length_seq. reflexivity.
    + unfold ts. rewrite length_map, length_seq. unfold N. lia.
    + apply detrend_grid_spread. unfold N. lia.
Qed.

End DetrendFacts.

Section Interp1dFacts.
Import SciPy.
Local Open Scope R_scope.

Lemma insert_by_x_perm (p : R * R) (l : list (R * R)) :
  Permutation (insert_by_x p l) (p :: l).
Proof.
  induction l as [|q l IH]; simpl; [reflexivity|].
  destruct (Rle_dec (fst p) (fst q)); [reflexivity|].
  rewrite IH. apply perm_swap.
Qed.

Lemma sort_by_x_perm (ps : list (R * R)) : Permutation (sort_by_x ps) ps.
Proof.
  induction ps as [|p ps IH]; simpl; [reflexivity|].
  rewrite insert_by_x_perm, IH. reflexivity.
Qed.

Lemma insert_by_x_sorted (p : R * R) (l : list (R * R)) :
  Sorted (fun a b => fst a <= fst b) l -> Sorted (fun a b => fst a <= fst b) (insert_by_x p l).
Proof.
  induction l as [|q l IH]; intro Hs; simpl; [repeat constructor|].
  destruct (Rle_dec (fst p) (fst q)) as [Hle|Hgt]; [constructor; [exact Hs|constructor; exact Hle]|].
  apply Sorted_inv in Hs as [Hs Hh]. constructor; [exact (IH Hs)|].
  destruct l as [|q' l]; simpl; [constructor; lra|].
  destruct (Rle_dec (fst p) (fst q')); constructor; [lra|]. inversion Hh; assumption.
Qed.

Lemma sort_by_x_sorted (ps : list (R * R)) :
  Sorted (fun a b => fst a <= fst b) (sort_by_x ps).
Proof.
  induction ps as [|p ps IH]; simpl; [constructor|]. apply insert_by_x_sorted. exact IH.
Qed.

Lemma strongly_sorted_fst (ps : list (R * R)) :
  StronglySorted (fun a b => fst a <= fst b) ps -> StronglySorted Rle (map fst ps).
Proof.
  induction ps as [|p ps IH]; intro H; simpl; [constructor|].
  apply StronglySorted_inv in H as [H1 H2]. constructor; [exact (IH H1)|].
  apply Forall_map. exact H2.
Qed.

Lemma strongly_sorted_strict (l : list R) :
  StronglySorted Rle l -> NoDup l -> StronglySorted Rlt l.
Proof.
  induction l as [|x l IH]; intros Hs Hn; [constructor|].
  apply StronglySorted_inv in Hs as [Hs Hf]. apply NoDup_cons_iff in Hn as [Hx Hn].
  constructor; [exact (IH Hs Hn)|].
  rewrite Forall_forall in *. intros y Hy. specialize (Hf y Hy).
  destruct (Req_dec x y); [subst; contradiction|lra].
Qed.

Lemma count_lt_none (v : R) (l : list R) :
  Forall (fun y => v <= y) l ->
  List.length (filter (fun x => if Rlt_dec x v then true else false) l) = O.
Proof.
  induction l as [|y l IH]; intro H; simpl; [reflexivity|].
  inversion H; subst. destruct (Rlt_dec y v); [lra|]. apply IH. assumption.
Qed.

Lemma searchsorted_strict (sx : list R) (j : nat) :
  StronglySorted Rlt sx -> (j < List.length sx)%nat -> searchsorted sx (nth j sx 0) = j.
Proof.
  unfold searchsorted. revert j. induction sx as [|x sx IH]; intros j Hs Hj; simpl in *; [lia|].
  apply StronglySorted_inv in Hs as [Hs Hf]. rewrite Forall_forall in Hf.
  destruct j as [|j].
  - destruct (Rlt_dec x x) as [H|_]; [lra|]. apply count_lt_none.
    apply Forall_forall. intros y Hy. apply Rlt_le, Hf, Hy.
  - assert (Hlt : x < nth j sx 0) by (apply Hf, nth_In; lia).
    destruct (Rlt_dec x (nth j sx 0)) as [_|n]; [|contradiction]. simpl.
    f_equal. apply IH; [exact Hs|lia].
Qed.

(** interp1d(x, y, kind='linear', fill_value='extrapolate') raises
    ValueError exactly when x and y differ in length or are empty; a single
    point is accepted, and the interpolant built on it is NaN everywhere
    (its one interval has width zero). *)
Theorem interp1d_errors (xs ys : list R) :
  (interp1d xs ys = None <-> List.length xs <> List.length ys \/ xs = [])
  /\ (forall x y f, interp1d [x] [y] = Some f -> forall v, f v = None).
Proof.
  split.
  - unfold interp1d.
    destruct (Nat.eqb_spec (List.length xs) (List.length ys)); simpl negb; cbv iota.
    + destruct xs as [|x xs]; cbn [List.length Nat.ltb Nat.leb]; cbv iota.
      * split; [intros _; right; reflexivity|reflexivity].
      * split; [discriminate|intros [Hc|Hc]; [contradiction|discriminate]].
    + split; [intros _; left; assumption|reflexivity].
  - intros x y f H v. unfold interp1d in H. cbn in H. injection H as <-.
    cbn. rewrite Nat.min_0_r. cbn.
    destruct (Req_dec_T (x - x) 0) as [_|Hx]; [reflexivity|].
    exfalso. apply Hx. ring.
Qed.

(** The points sorted by abscissa, when the abscissae are distinct. *)
Lemma sorted_points (xs ys : list R) :
  NoDup xs -> List.length xs = List.length ys ->
  let ps := sort_by_x (combine xs ys) in
  Permutation ps (combine xs ys) /\ NoDup (map fst ps)
  /\ StronglySorted Rlt (map fst ps) /\ List.length ps = List.length xs.
Proof.
  intros Hn Hl ps.
  assert (Hp : Permutation ps (combine xs ys)) by apply sort_by_x_perm.
  assert (Hf : Permutation (map fst ps) xs).
  { transitivity (map fst (combine xs ys)); [apply Permutation_map; exact Hp|].
    rewrite (map_fst_combine xs ys Hl). reflexivity. }
  assert (Hnd : NoDup (map fst ps)) by (eapply Permutation_NoDup; [symmetry; exact Hf|exact Hn]).
  split; [exact Hp|split; [exact Hnd|split]].
  - apply strongly_sorted_strict; [|exact Hnd]. apply strongly_sorted_fst.
    apply Sorted_StronglySorted; [intros a b c; lra|]. apply sort_by_x_sorted.
  - rewrite <- (length_map fst), (Permutation_length Hf). reflexivity.
Qed.

(** For distinct x values (at least two) with y on a line a x + b, the
    linear interpolant returns a v + b at every v, inside or outside the
    data range. *)
Theorem interp1d_line (xs : list R) (a b : R) :
  NoDup xs -> (2 <= List.length xs)%nat ->
  exists f, interp1d xs (map (fun x => a * x + b) xs) = Some f
  /\ forall v, f v = Some (a * v + b).
Proof.
  intros Hn H2. unfold interp1d. rewrite length_map, Nat.eqb_refl. simpl negb. cbv iota.
  replace (List.length xs <? 1)%nat with false by (symmetry; apply Nat.ltb_ge; lia).
  eexists. split; [reflexivity|]. intro v. cbv zeta.
  destruct (sorted_points xs (map (fun x => a * x + b) xs) Hn (eq_sym (length_map _ _)))
    as [Hp [Hnd [_ Hlen]]].
  set (ps := sort_by_x (combine xs (map (fun x => a * x + b) xs))) in *.
  set (i := Nat.min (Nat.max (searchsorted (map fst ps) v) 1) (List.length ps - 1)).
  assert (Hi1 : (1 <= i)%nat) by (unfold i; lia).
  assert (Hi2 : (i < List.length ps)%nat) by (unfold i; lia).
  assert (Hon : forall k, (k < List.length ps)%nat ->
            nth k (map snd ps) 0 = a * nth k (map fst ps) 0 + b).
  { intros k Hk. rewrite (nth_map_lt _ _ k 0 (0, 0)) by exact Hk.
    rewrite (nth_map_lt _ _ k 0 (0, 0)) by exact Hk.
    assert (Hin : In (nth k ps (0, 0)) (combine xs (map (fun x => a * x + b) xs)))
      by (eapply Permutation_in; [exact Hp|apply nth_In; exact Hk]).
    rewrite combine_map_r in Hin. apply in_map_iff in Hin as [x [Ex _]].
    rewrite <- Ex. reflexivity. }
  rewrite !Hon by lia.
  assert (Hne : nth i (map fst ps) 0 <> nth (i - 1) (map fst ps) 0).
  { intro E. apply (NoDup_nth (map fst ps) 0) in E; [lia|exact Hnd| |];
      rewrite length_map; lia. }
  destruct (Req_EM_T (nth i (map fst ps) 0 - nth (i - 1) (map fst ps) 0) 0) as [E|_]; [lra|].
  f_equal. field. lra.
Qed.

Lemma interp1d_line_witness :
  exists f, interp1d [0; 1; 2; 3] (map (fun x => 2 * x + 1) [0; 1; 2; 3]) = Some f
  /\ forall v, f v = Some (2 * v + 1).
Proof.
  apply (interp1d_line [0; 1; 2; 3] 2 1).
  - repeat constructor; simpl; intuition lra.
  - simpl. lia.
Defined.

(** For distinct x values (at least two, in any order) and y of the same
    length, the linear interpolant passes through every data point: f(x[k])
    = y[k]. *)
Theorem interp1d_knots (xs ys : list R) :
  NoDup xs -> List.length xs = List.length ys -> (2 <= List.length xs)%nat ->
  exists f, interp1d xs ys = Some f
  /\ forall k, (k < List.length xs)%nat -> f (nth k xs 0) = Some (nth k ys 0).
Proof.
  intros Hn Hl H2. unfold interp1d. rewrite Hl, Nat.eqb_refl. simpl negb. cbv iota.
  replace (List.length ys <? 1)%nat with false by (symmetry; apply Nat.ltb_ge; lia).
  eexists. split; [reflexivity|]. intros k Hk. cbv zeta.
  destruct (sorted_points xs ys Hn Hl) as [Hp [Hnd [Hss Hlen]]].
  set (ps := sort_by_x (combine xs ys)) in *.
  assert (Hin : In (nth k xs 0, nth k ys 0) ps).
  { eapply Permutation_in; [symmetry; exact Hp|].
    rewrite <- combine_nth by exact Hl. apply nth_In. rewrite length_combine. lia. }
  apply (In_nth ps _ (0, 0)) in Hin as [j [Hj Ej]].
  assert (Hx : nth j (map fst ps) 0 = nth k xs 0)
    by (rewrite (nth_map_lt _ _ j 0 (0, 0)) by exact Hj; rewrite Ej; reflexivity).
  assert (Hy : nth j (map snd ps) 0 = nth k ys 0)
    by (rewrite (nth_map_lt _ _ j 0 (0, 0)) by exact Hj; rewrite Ej; reflexivity).
  rewrite <- Hx, searchsorted_strict by (rewrite ?length_map; assumption).
  assert (Hne : forall u w, (u < List.length ps)%nat -> (w < List.length ps)%nat -> u <> w ->
                  nth u (map fst ps) 0 - nth w (map fst ps) 0 <> 0).
  { intros u w Hu Hw Huw E. apply Huw. apply (NoDup_nth (map fst ps) 0);
      [exact Hnd|rewrite length_map; exact Hu|rewrite length_map; exact Hw|lra]. }
  destruct j as [|j].
  - replace (Nat.min (Nat.max 0 1) (List.length ps - 1)) with 1%nat by lia. simpl (1 - 1)%nat.
    destruct (Req_EM_T (nth 1 (map fst ps) 0 - nth 0 (map fst ps) 0) 0) as [E|_].
    + exfalso. revert E. apply Hne; lia.
    + rewrite <- Hy. f_equal. ring.
  - replace (Nat.min (Nat.max (S j) 1) (List.length ps - 1)) with (S j) by lia.
    replace (S j - 1)%nat with j by lia.
    destruct (Req_EM_T (nth (S j) (map fst ps) 0 - nth j (map fst ps) 0) 0) as [E|_].
    + exfalso. revert E. apply Hne; lia.
    + rewrite <- Hy. f_equal. field. apply Hne; lia.
Qed.

Lemma interp1d_knots_witness :
  exists f, interp1d [0; 1; 2; 3] [0; 1; 4; 9] = Some f
  /\ forall k, (k < List.length [0; 1; 2; 3])%nat ->
       f (nth k [0; 1; 2; 3] 0) = Some (nth k [0; 1; 4; 9] 0).
Proof.
  apply (interp1d_knots [0; 1; 2; 3] [0; 1; 4; 9]).
  - repeat constructor; simpl; intuition lra.
  - reflexivity.
  - simpl. lia.
Defined.

End Interp1dFacts.
